(** * Ant Battle: a shallow embedding of [ants_game.py]

    The game logic of [ants_game.py] (terrain, abilities, status effects,
    combatants, the opponent controller and the projectile block of the
    frame update) is transcribed into executable Rocq definitions, and the
    properties of the design document are settled against them.

    Numbers.  Python [int] values are [Z]; Python [float] values are
    modelled as exact rationals [Q], so rounding error is outside the
    model.  [math.sin] and [math.pi] are not rational: they are taken as
    the fields of a [MathLib] record that the terrain generator receives.
    [math.hypot] is a field of the same record: the distance tests are
    made on the value it returns, whatever its rounding.  Every float of
    the model is a finite number: where the code would overflow to an
    infinity, and [int()] would then raise [OverflowError], the model
    goes on with the exact value, so the statements about the absence
    of exceptions carry a bound on the sizes.  The [random] module is a
    stream of unit samples with a cursor.  Everything about pygame
    surfaces and drawing is left out, except for the random draws that
    [Terrain.render_terrain] consumes. *)

From Stdlib Require Import ZArith QArith Lia Lqa.
From stdpp Require Import gmap strings list.

Local Open Scope Z_scope.

(** ** Python numerics *)

Module Py.

(** [a < b] on floats, as a boolean. *)
Definition Qltb (a b : Q) : bool := negb (Qle_bool b a).

(** [max(a, b)]: Python returns [a] unless [b > a]. *)
Definition max (a b : Q) : Q := if Qltb a b then b else a.

(** [min(a, b)]: Python returns [a] unless [b < a]. *)
Definition min (a b : Q) : Q := if Qltb b a then b else a.

(** [int(q)]: truncation toward zero. *)
Definition int (q : Q) : Z := Z.quot (Qnum q) (Z.pos (Qden q)).

(** [abs(q)]. *)
Definition abs (q : Q) : Q := if Qltb q 0 then (- q)%Q else q.

(** [range(start, stop, step)] for a positive [step]: the values
    [start, start + step, ...] below [stop].  The fuel [stop - start]
    is enough for every positive step (see [length_range]). *)
Fixpoint range_from (fuel : nat) (x stop step : Z) : list Z :=
  match fuel with
  | O => []
  | S fuel' =>
      if x <? stop then x :: range_from fuel' (x + step) stop step else []
  end.

Definition range (start stop step : Z) : list Z :=
  range_from (Z.to_nat (stop - start)) start stop step.

(** [l[i]] for a Python list: a negative index counts from the end, an
    index out of range raises [IndexError] ([None]). *)
Definition index {A} (l : list A) (i : Z) : option A :=
  let j := if i <? 0 then i + Z.of_nat (length l) else i in
  if j <? 0 then None else l !! Z.to_nat j.

End Py.

(** ** The [random] module *)

Record RNG := mkRNG { samples : nat -> Q; cursor : nat }.

Definition advance (n : nat) (g : RNG) : RNG :=
  {| samples := samples g; cursor := (cursor g + n)%nat |}.

(** [random.random()] *)
Definition random (g : RNG) : Q * RNG := (samples g (cursor g), advance 1 g).

(** [random.uniform(a, b)] is [a + (b - a) * random()]. *)
Definition uniform (a b : Q) (g : RNG) : Q * RNG :=
  let '(u, g') := random g in ((a + (b - a) * u)%Q, g').

(** What is taken from the [math] module: the sine, [pi], and
    [math.hypot], as the functions and the number the library provides. *)
Record MathLib := mkMathLib { sin : Q -> Q; pi : Q; hypot : Q -> Q -> Q }.

(** ** Configuration *)

Record GameConfig := mkGameConfig {
  SCREEN_WIDTH : Z;
  SCREEN_HEIGHT : Z;
  FPS : Z;
  GRAVITY : Q;
  TERRAIN_RESOLUTION : Z;
  MIN_GROUND_HEIGHT : Z;
  MAX_GROUND_HEIGHT : Z;
  DESTRUCTION_FADE_SPEED : Z
}.

(** [GameConfig()] *)
Definition default_config : GameConfig :=
  {| SCREEN_WIDTH := 800; SCREEN_HEIGHT := 600; FPS := 60; GRAVITY := 0.5;
     TERRAIN_RESOLUTION := 2; MIN_GROUND_HEIGHT := 100;
     MAX_GROUND_HEIGHT := 200; DESTRUCTION_FADE_SPEED := 5 |}.

(** ** Terrain *)

Record Terrain := mkTerrain { config : GameConfig; height_map : list Z }.

(** One iteration of the loop of [Terrain.generate_terrain]. *)
Definition terrain_height (m : MathLib) (cfg : GameConfig) (phase : Q) (x : Z) : Z :=
  let height := inject_Z (MIN_GROUND_HEIGHT cfg) in
  let height := (height + sin m (inject_Z x * 0.02 + phase) * 30)%Q in
  let height := (height + sin m (inject_Z x * 0.05 + phase * 2) * 15)%Q in
  let height := (height + sin m (inject_Z x * 0.01 + phase * 0.5) * 45)%Q in
  let height :=
    Py.min (Py.max height (inject_Z (MIN_GROUND_HEIGHT cfg)))
           (inject_Z (MAX_GROUND_HEIGHT cfg)) in
  Py.int height.

(** The heights of [Terrain.generate_terrain] for a given phase. *)
Definition generate_heights (m : MathLib) (cfg : GameConfig) (phase : Q) : list Z :=
  terrain_height m cfg phase
    <$> Py.range 0 (SCREEN_WIDTH cfg) (TERRAIN_RESOLUTION cfg).

(** [Terrain.generate_terrain]: the phase is one [random.uniform] draw. *)
Definition generate_terrain (m : MathLib) (cfg : GameConfig) (g : RNG) : list Z * RNG :=
  let '(phase, g') := uniform 0 (pi m * 2) g in
  (generate_heights m cfg phase, g').

(** [Terrain.render_terrain]: only its random draws are kept, one per
    point of the polygon but the last two, that is one per sample. *)
Definition render_terrain (t : Terrain) (g : RNG) : RNG :=
  advance (length (height_map t)) g.

(** [Terrain.__init__] *)
Definition Terrain_init (m : MathLib) (cfg : GameConfig) (g : RNG) : Terrain * RNG :=
  let '(hm, g') := generate_terrain m cfg g in
  let t := {| config := cfg; height_map := hm |} in
  (t, render_terrain t g').

(** [int((radius - dist) * 0.5)] *)
Definition height_reduction (radius dist : Z) : Z :=
  Py.int (inject_Z (radius - dist) * 0.5)%Q.

(** The body of the loop of [Terrain.apply_destruction] at index [i].
    The loop bounds keep [i] inside the list (see [crater_indices_valid]),
    so the [None] branch, where Python would raise, is never taken. *)
Definition crater_step (cfg : GameConfig) (x radius : Z) (hm : list Z) (i : Z) : list Z :=
  let dist := Z.abs (x - i * TERRAIN_RESOLUTION cfg) in
  if dist <? radius then
    match hm !! Z.to_nat i with
    | Some h =>
        <[Z.to_nat i := Z.max (MIN_GROUND_HEIGHT cfg) (h - height_reduction radius dist)]> hm
    | None => hm
    end
  else hm.

Definition impact_start (cfg : GameConfig) (x radius : Z) : Z :=
  Z.max 0 (x / TERRAIN_RESOLUTION cfg - radius / TERRAIN_RESOLUTION cfg).

Definition impact_end (cfg : GameConfig) (hm : list Z) (x radius : Z) : Z :=
  Z.min (Z.of_nat (length hm)) ((x + radius) / TERRAIN_RESOLUTION cfg + 1).

(** The indices that the loop of [Terrain.apply_destruction] visits. *)
Definition crater_indices (cfg : GameConfig) (hm : list Z) (x radius : Z) : list Z :=
  seqZ (impact_start cfg x radius)
       (impact_end cfg hm x radius - impact_start cfg x radius).

(** The height-map part of [Terrain.apply_destruction]; [y] is only used
    for drawing. *)
Definition crater (t : Terrain) (x y radius : Z) : Terrain :=
  {| config := config t;
     height_map :=
       foldl (crater_step (config t) x radius) (height_map t)
             (crater_indices (config t) (height_map t) x radius) |}.

(** [Terrain.apply_destruction]: the crater, then a re-render. *)
Definition apply_destruction (t : Terrain) (x y radius : Z) (g : RNG) : Terrain * RNG :=
  let t' := crater t x y radius in (t', render_terrain t' g).

(** [Terrain.get_height_at]; [None] is an [IndexError]. *)
Definition get_height_at (t : Terrain) (x : Z) : option Z :=
  if (x <? 0) || (SCREEN_WIDTH (config t) <=? x) then
    Some (MIN_GROUND_HEIGHT (config t))
  else
    let index := x / TERRAIN_RESOLUTION (config t) in
    let index := Z.min (Z.of_nat (length (height_map t)) - 1) index in
    Py.index (height_map t) index.

(** [Terrain.check_collision] *)
Definition check_collision (t : Terrain) (x y : Z) : option bool :=
  if (x <? 0) || (SCREEN_WIDTH (config t) <=? x)
     || (y <? 0) || (SCREEN_HEIGHT (config t) <=? y) then Some false
  else
    h ← get_height_at t x;
    let terrain_height := SCREEN_HEIGHT (config t) - h in
    Some (terrain_height <=? y).

(** ** Abilities and status effects *)

Inductive AbilityKind := BiteAbility | AcidSprayAbility.

(** An [Ability] object.  [area_effect] only exists on the acid spray. *)
Record Ability := mkAbility {
  kind : AbilityKind;
  cooldown : Q;
  current_cooldown : Q;
  damage : Z;
  range : Z;
  area_effect : option Z
}.

(** [BiteAbility()] *)
Definition BiteAbility_init : Ability :=
  {| kind := BiteAbility; cooldown := 2.0; current_cooldown := 0;
     damage := 20; range := 30; area_effect := None |}.

(** [AcidSprayAbility()] *)
Definition AcidSprayAbility_init : Ability :=
  {| kind := AcidSprayAbility; cooldown := 5.0; current_cooldown := 0;
     damage := 15; range := 50; area_effect := Some 20 |}.

Definition set_current_cooldown (c : Q) (ab : Ability) : Ability :=
  {| kind := kind ab; cooldown := cooldown ab; current_cooldown := c;
     damage := damage ab; range := range ab; area_effect := area_effect ab |}.

(** [Ability.update] *)
Definition Ability_update (dt : Q) (ab : Ability) : Ability :=
  if Py.Qltb 0 (current_cooldown ab)
  then set_current_cooldown (current_cooldown ab - dt)%Q ab
  else ab.

(** A [StatusEffect] object: an instance of the base class, or an
    [AcidEffect], which adds [damage_per_second]. *)
Inductive StatusEffect :=
| PlainEffect (duration remaining_time : Q)
| AcidEffect (duration remaining_time : Q) (damage_per_second : Z).

Definition remaining_time (e : StatusEffect) : Q :=
  match e with PlainEffect _ r | AcidEffect _ r _ => r end.

(** The damage rate of an effect: [damage_per_second] for the acid, none
    for the base class, whose [update] deals no damage. *)
Definition damage_rate (e : StatusEffect) : Q :=
  match e with PlainEffect _ _ => 0%Q | AcidEffect _ _ d => inject_Z d end.

(** [AcidEffect(duration)] *)
Definition AcidEffect_init (duration : Q) : StatusEffect :=
  AcidEffect duration duration 5.

(** ** Combatants *)

Record Ant := mkAnt {
  x : Q;
  y : Q;
  color : Z * Z * Z;
  health : Q;
  max_health : Z;
  is_alive : bool;
  is_ai : bool;
  velocity : Q * Q;
  direction : Z;
  walking : bool;
  animation_frame : Z;
  animation_timer : Q;
  abilities : gmap string Ability;
  active_effects : list StatusEffect
}.

Definition BLACK : Z * Z * Z := (0, 0, 0).
Definition BLUE : Z * Z * Z := (0, 0, 255).

(** [Ant(x, y, color, is_ai)] *)
Definition Ant_init (x0 y0 : Q) (c : Z * Z * Z) (ai : bool) : Ant :=
  {| x := x0; y := y0; color := c; health := 100; max_health := 100;
     is_alive := true; is_ai := ai; velocity := (0%Q, 0%Q); direction := 1;
     walking := false; animation_frame := 0; animation_timer := 0;
     abilities :=
       <["acid_spray" := AcidSprayAbility_init]>
         (<["bite" := BiteAbility_init]> ∅);
     active_effects := [] |}.

Definition set_x (v : Q) (a : Ant) : Ant :=
  {| x := v; y := y a; color := color a; health := health a;
     max_health := max_health a; is_alive := is_alive a; is_ai := is_ai a;
     velocity := velocity a; direction := direction a; walking := walking a;
     animation_frame := animation_frame a;
     animation_timer := animation_timer a; abilities := abilities a;
     active_effects := active_effects a |}.

Definition set_y (v : Q) (a : Ant) : Ant :=
  {| x := x a; y := v; color := color a; health := health a;
     max_health := max_health a; is_alive := is_alive a; is_ai := is_ai a;
     velocity := velocity a; direction := direction a; walking := walking a;
     animation_frame := animation_frame a;
     animation_timer := animation_timer a; abilities := abilities a;
     active_effects := active_effects a |}.

Definition set_health (v : Q) (a : Ant) : Ant :=
  {| x := x a; y := y a; color := color a; health := v;
     max_health := max_health a; is_alive := is_alive a; is_ai := is_ai a;
     velocity := velocity a; direction := direction a; walking := walking a;
     animation_frame := animation_frame a;
     animation_timer := animation_timer a; abilities := abilities a;
     active_effects := active_effects a |}.

Definition set_is_alive (v : bool) (a : Ant) : Ant :=
  {| x := x a; y := y a; color := color a; health := health a;
     max_health := max_health a; is_alive := v; is_ai := is_ai a;
     velocity := velocity a; direction := direction a; walking := walking a;
     animation_frame := animation_frame a;
     animation_timer := animation_timer a; abilities := abilities a;
     active_effects := active_effects a |}.

Definition set_velocity (v : Q * Q) (a : Ant) : Ant :=
  {| x := x a; y := y a; color := color a; health := health a;
     max_health := max_health a; is_alive := is_alive a; is_ai := is_ai a;
     velocity := v; direction := direction a; walking := walking a;
     animation_frame := animation_frame a;
     animation_timer := animation_timer a; abilities := abilities a;
     active_effects := active_effects a |}.

Definition set_direction (v : Z) (a : Ant) : Ant :=
  {| x := x a; y := y a; color := color a; health := health a;
     max_health := max_health a; is_alive := is_alive a; is_ai := is_ai a;
     velocity := velocity a; direction := v; walking := walking a;
     animation_frame := animation_frame a;
     animation_timer := animation_timer a; abilities := abilities a;
     active_effects := active_effects a |}.

Definition set_walking (v : bool) (a : Ant) : Ant :=
  {| x := x a; y := y a; color := color a; health := health a;
     max_health := max_health a; is_alive := is_alive a; is_ai := is_ai a;
     velocity := velocity a; direction := direction a; walking := v;
     animation_frame := animation_frame a;
     animation_timer := animation_timer a; abilities := abilities a;
     active_effects := active_effects a |}.

Definition set_animation (frame : Z) (timer : Q) (a : Ant) : Ant :=
  {| x := x a; y := y a; color := color a; health := health a;
     max_health := max_health a; is_alive := is_alive a; is_ai := is_ai a;
     velocity := velocity a; direction := direction a; walking := walking a;
     animation_frame := frame; animation_timer := timer;
     abilities := abilities a; active_effects := active_effects a |}.

Definition set_abilities (v : gmap string Ability) (a : Ant) : Ant :=
  {| x := x a; y := y a; color := color a; health := health a;
     max_health := max_health a; is_alive := is_alive a; is_ai := is_ai a;
     velocity := velocity a; direction := direction a; walking := walking a;
     animation_frame := animation_frame a;
     animation_timer := animation_timer a; abilities := v;
     active_effects := active_effects a |}.

Definition set_active_effects (v : list StatusEffect) (a : Ant) : Ant :=
  {| x := x a; y := y a; color := color a; health := health a;
     max_health := max_health a; is_alive := is_alive a; is_ai := is_ai a;
     velocity := velocity a; direction := direction a; walking := walking a;
     animation_frame := animation_frame a;
     animation_timer := animation_timer a; abilities := abilities a;
     active_effects := v |}.

(** [Ant.take_damage] *)
Definition take_damage (amount : Q) (a : Ant) : Ant :=
  if negb (is_alive a) then a
  else
    let a := set_health (Py.max 0 (health a - amount)) a in
    if Qle_bool (health a) 0 then set_is_alive false a else a.

(** [Ant.apply_effect]; any type other than ["acid"] is ignored. *)
Definition apply_effect (effect_type : string) (duration : Q) (a : Ant) : Ant :=
  if String.eqb effect_type "acid"
  then set_active_effects (active_effects a ++ [AcidEffect_init duration]) a
  else a.

(** [StatusEffect.update] and its override [AcidEffect.update], called on
    the holder [target]: the verdict, the effect and the holder after the
    call. *)
Definition StatusEffect_update (dt : Q) (e : StatusEffect) (target : Ant)
  : bool * StatusEffect * Ant :=
  match e with
  | PlainEffect d r =>
      let r' := (r - dt)%Q in (Py.Qltb 0 r', PlainEffect d r', target)
  | AcidEffect d r dps =>
      let target' := take_damage (inject_Z dps * dt) target in
      let r' := (r - dt)%Q in (Py.Qltb 0 r', AcidEffect d r' dps, target')
  end.

(** The list comprehension of [Ant.update]: every effect of the old list
    is updated in order against the holder, and the ones that report
    [True] make up the new list. *)
Fixpoint update_effects (dt : Q) (effects : list StatusEffect) (a : Ant)
  : list StatusEffect * Ant :=
  match effects with
  | [] => ([], a)
  | e :: rest =>
      let '(keep, e', a1) := StatusEffect_update dt e a in
      let '(rest', a2) := update_effects dt rest a1 in
      (if keep then e' :: rest' else rest', a2)
  end.

(** [Ant.update]; [None] is an [IndexError] from the terrain lookup.
    [int(self.x)] always answers here, the position of the model being a
    finite number. *)
Definition Ant_update (dt : Q) (terrain : Terrain) (a : Ant) : option Ant :=
  if negb (is_alive a) then Some a
  else
    let a := set_x (x a + fst (velocity a)) a in
    let a := set_y (y a + snd (velocity a)) a in
    ground_height ← get_height_at terrain (Py.int (x a));
    let ground := inject_Z (SCREEN_HEIGHT (config terrain) - ground_height) in
    let a :=
      if Py.Qltb ground (y a)
      then set_velocity (fst (velocity a), 0%Q) (set_y ground a)
      else set_velocity (fst (velocity a),
                         (snd (velocity a) + GRAVITY (config terrain))%Q) a in
    let a := set_abilities (Ability_update dt <$> abilities a) a in
    let '(effects, a) := update_effects dt (active_effects a) a in
    let a := set_active_effects effects a in
    let a :=
      if walking a then
        let timer := (animation_timer a + dt)%Q in
        if Qle_bool 0.1 timer
        then set_animation ((animation_frame a + 1) mod 4) 0 a
        else set_animation (animation_frame a) timer a
      else a in
    Some a.

(** ** The two combatants as a store *)

(** References to the two [Ant] objects of a match.  Passing references
    keeps the case where user and target are the same object. *)
Inductive Who := Player | Enemy.

Record World := mkWorld { player : Ant; enemy : Ant }.

Definition get (w : World) (r : Who) : Ant :=
  match r with Player => player w | Enemy => enemy w end.

Definition modify (r : Who) (f : Ant -> Ant) (w : World) : World :=
  match r with
  | Player => {| player := f (player w); enemy := enemy w |}
  | Enemy => {| player := player w; enemy := f (enemy w) |}
  end.

(** [BiteAbility.activate] and [AcidSprayAbility.activate].  The ability
    object is returned next to the store; its owner writes it back. *)
Definition activate (m : MathLib) (ab : Ability) (user target : Who) (w : World)
  : bool * Ability * World :=
  if Py.Qltb 0 (current_cooldown ab) then (false, ab, w)
  else
    let u := get w user in
    let t := get w target in
    let distance := hypot m (x u - x t) (y u - y t) in
    if Qle_bool distance (inject_Z (range ab)) then
      let w := modify target (take_damage (inject_Z (damage ab))) w in
      let w :=
        match kind ab with
        | BiteAbility => w
        | AcidSprayAbility => modify target (apply_effect "acid" 3.0) w
        end in
      (true, set_current_cooldown (cooldown ab) ab, w)
    else (false, ab, w).

(** [Ant.use_ability], called on the object [user]. *)
Definition use_ability (m : MathLib) (ability_name : string) (user target : Who)
    (w : World) : bool * World :=
  match abilities (get w user) !! ability_name with
  | Some ab =>
      let '(ok, ab', w') := activate m ab user target w in
      (ok, modify user
             (fun a => set_abilities (<[ability_name := ab']> (abilities a)) a) w')
  | None => (false, w)
  end.

(** ** The opponent controller *)

(** The three values that [AIController.state] takes: ["idle"], ["move"]
    and ["attack"]. *)
Inductive AIState := idle | move | attack.

Record AIController := mkAIController {
  ai_ant : Who;
  ai_config : GameConfig;
  ai_state : AIState;
  state_timer : Q;
  difficulty : Q
}.

(** [AIController(ant, config)] *)
Definition AIController_init (ant : Who) (cfg : GameConfig) : AIController :=
  {| ai_ant := ant; ai_config := cfg; ai_state := idle; state_timer := 0;
     difficulty := 0.7 |}.

Definition set_state (s : AIState) (timer : Q) (ai : AIController) : AIController :=
  {| ai_ant := ai_ant ai; ai_config := ai_config ai; ai_state := s;
     state_timer := timer; difficulty := difficulty ai |}.

(** The ["attack"] branch up to the state change: the rolls are only
    drawn when the distance test before them succeeds, and the result of
    [use_ability] is dropped. *)
Definition attack_decision (m : MathLib) (ai : AIController) (player_ant : Who)
    (distance_to_player : Q) (w : World) (g : RNG) : World * RNG :=
  if Py.Qltb distance_to_player 120 then
    let '(roll, g) := random g in
    if Py.Qltb roll (difficulty ai) then
      if Py.Qltb distance_to_player 40 then
        let '(roll2, g) := random g in
        if Py.Qltb roll2 0.7
        then (snd (use_ability m "bite" (ai_ant ai) player_ant w), g)
        else (snd (use_ability m "acid_spray" (ai_ant ai) player_ant w), g)
      else (snd (use_ability m "acid_spray" (ai_ant ai) player_ant w), g)
    else (w, g)
  else (w, g).

(** [AIController.update]; the terrain argument is not used. *)
Definition AIController_update (m : MathLib) (dt : Q) (player_ant : Who) (terrain : Terrain)
    (ai : AIController) (w : World) (g : RNG) : AIController * World * RNG :=
  if negb (is_alive (get w (ai_ant ai))) then (ai, w, g)
  else
    let ai := set_state (ai_state ai) (state_timer ai - dt)%Q ai in
    let distance_to_player :=
      Py.abs (x (get w (ai_ant ai)) - x (get w player_ant)) in
    match ai_state ai with
    | idle =>
        if Qle_bool (state_timer ai) 0 then
          if Py.Qltb distance_to_player 100 then (set_state attack 2.0 ai, w, g)
          else
            let '(t, g) := uniform 1.0 3.0 g in (set_state move t ai, w, g)
        else (ai, w, g)
    | move =>
        if Qle_bool (state_timer ai) 0 || Py.Qltb distance_to_player 50 then
          let '(t, g) := uniform 0.5 1.5 g in (set_state idle t ai, w, g)
        else
          let direction : Z :=
            if Py.Qltb (x (get w (ai_ant ai))) (x (get w player_ant))
            then 1 else -1 in
          let '(roll, g) := random g in
          let direction := if Py.Qltb roll 0.2 then direction * -1 else direction in
          (ai,
           modify (ai_ant ai) (fun a => set_x (x a + inject_Z (direction * 2)) a) w,
           g)
    | attack =>
        let '(w, g) := attack_decision m ai player_ant distance_to_player w g in
        let '(t, g) := uniform 1.0 2.0 g in
        (set_state idle t ai, w, g)
    end.

(** ** Projectiles and the frame update *)

Record Projectile := mkProjectile {
  p_x : Q;
  p_y : Q;
  p_velocity : Q * Q;
  p_damage : Z;
  active : bool;
  trail : list (Q * Q);
  trail_length : Z
}.

(** [Projectile(x, y, velocity)] *)
Definition Projectile_init (x0 y0 : Q) (v : Q * Q) : Projectile :=
  {| p_x := x0; p_y := y0; p_velocity := v; p_damage := 30; active := true;
     trail := []; trail_length := 10 |}.

Definition set_active (b : bool) (p : Projectile) : Projectile :=
  {| p_x := p_x p; p_y := p_y p; p_velocity := p_velocity p;
     p_damage := p_damage p; active := b; trail := trail p;
     trail_length := trail_length p |}.

(** [Projectile.update] *)
Definition Projectile_update (cfg : GameConfig) (p : Projectile) : Projectile :=
  let trail := trail p ++ [(p_x p, p_y p)] in
  let trail :=
    if trail_length p <? Z.of_nat (length trail) then tail trail else trail in
  let vy := (snd (p_velocity p) + GRAVITY cfg)%Q in
  let vx := fst (p_velocity p) in
  {| p_x := (p_x p + vx)%Q; p_y := (p_y p + vy)%Q; p_velocity := (vx, vy);
     p_damage := p_damage p; active := active p; trail := trail;
     trail_length := trail_length p |}.

Inductive GameState := MENU | PLAYING | PAUSED | GAME_OVER.

Record Game := mkGame {
  g_config : GameConfig;
  g_state : GameState;
  terrain : Terrain;
  world : World;
  ai_controller : AIController;
  projectile : option Projectile;
  charging_power : Q
}.

(** The ground check of [Game.update] on a projectile that has moved. *)
Definition ground_check (p : Projectile) (t : Terrain) (g : RNG)
  : option (Projectile * Terrain * RNG) :=
  hit ← check_collision t (Py.int (p_x p)) (Py.int (p_y p));
  if hit : bool then
    let '(t', g') := apply_destruction t (Py.int (p_x p)) (Py.int (p_y p)) 20 g in
    Some (set_active false p, t', g')
  else Some (p, t, g).

(** The enemy check of [Game.update], which follows the ground check
    whatever its outcome. *)
Definition enemy_check (m : MathLib) (p : Projectile) (w : World) : Projectile * World :=
  let distance := hypot m (p_x p - x (enemy w)) (p_y p - y (enemy w)) in
  if Py.Qltb distance 15 then
    (set_active false p, modify Enemy (take_damage (inject_Z (p_damage p))) w)
  else (p, w).

(** The projectile block of [Game.update], entered with an active
    projectile. *)
Definition projectile_tick (m : MathLib) (cfg : GameConfig) (p : Projectile) (t : Terrain)
    (w : World) (g : RNG) : option (Projectile * Terrain * World * RNG) :=
  let p := Projectile_update cfg p in
  '(p, t, g) ← ground_check p t g;
  let '(p, w) := enemy_check m p w in
  Some (p, t, w, g).

(** [Game.update]; [None] is an [IndexError] from a terrain lookup, the
    only exception of the model. *)
Definition Game_update (m : MathLib) (dt : Q) (gm : Game) (g : RNG) : option (Game * RNG) :=
  pl ← Ant_update dt (terrain gm) (player (world gm));
  en ← Ant_update dt (terrain gm) (enemy (world gm));
  let w := {| player := pl; enemy := en |} in
  let '(ai, w, g) :=
    AIController_update m dt Player (terrain gm) (ai_controller gm) w g in
  '(proj, t, w, g) ←
    match projectile gm with
    | Some p =>
        if active p then
          '(p, t, w, g) ← projectile_tick m (g_config gm) p (terrain gm) w g;
          Some (Some p, t, w, g)
        else Some (Some p, terrain gm, w, g)
    | None => Some (None, terrain gm, w, g)
    end;
  let st :=
    if negb (is_alive (player w)) || negb (is_alive (enemy w))
    then GAME_OVER else g_state gm in
  Some ({| g_config := g_config gm; g_state := st; terrain := t; world := w;
           ai_controller := ai; projectile := proj;
           charging_power := charging_power gm |}, g).

(** ** Notions used to state the properties *)

(** [ceil(a / b)] on integers. *)
Definition ceil_div (a b : Z) : Z := - ((- a) / b).

(** What one visit of the crater loop leaves in the sample [h] at index [i]. *)
Definition crater_sample (cfg : GameConfig) (x radius : Z) (i h : Z) : Z :=
  let dist := Z.abs (x - i * TERRAIN_RESOLUTION cfg) in
  if dist <? radius
  then Z.max (MIN_GROUND_HEIGHT cfg) (h - height_reduction radius dist)
  else h.

(** A configuration that [Terrain.generate_terrain] can work with. *)
Definition config_ok (cfg : GameConfig) : Prop :=
  0 < TERRAIN_RESOLUTION cfg /\ 0 <= SCREEN_WIDTH cfg
  /\ MIN_GROUND_HEIGHT cfg <= MAX_GROUND_HEIGHT cfg.

(** The invariant of the height field. *)
Definition terrain_ok (t : Terrain) : Prop :=
  Forall (fun h => MIN_GROUND_HEIGHT (config t) <= h <= MAX_GROUND_HEIGHT (config t))
         (height_map t)
  /\ Z.of_nat (length (height_map t))
     = ceil_div (SCREEN_WIDTH (config t)) (TERRAIN_RESOLUTION (config t)).

(** The terrains of a match: the generated one, then any craters. *)
Inductive reachable (m : MathLib) (cfg : GameConfig) : Terrain -> Prop :=
| reachable_init (g : RNG) : reachable m cfg (Terrain_init m cfg g).1
| reachable_crater (t : Terrain) (x y radius : Z) (g : RNG) :
    reachable m cfg t -> reachable m cfg (apply_destruction t x y radius g).1.

(** A sequence of craters, each given by [(x, y, radius)]. *)
Definition apply_craters (cs : list (Z * Z * Z)) (t : Terrain) (g : RNG) : Terrain * RNG :=
  foldl (fun '(t, g) '(x, y, radius) => apply_destruction t x y radius g) (t, g) cs.

(** ** Concrete values for the examples *)

(** A square root for the examples: the root of [s], rounded down to 64
    binary places (of [1 / Qden s]); exact when the root is rational. *)
Definition sqrt_down (s : Q) : Q :=
  Qmake (Z.sqrt (Qnum s * Z.pos (Qden s) * 4 ^ 64)) (Qden s * 2 ^ 64).

(** A stand-in for the [math] module: the sine is constantly [1], and
    the hypotenuse is the root of the sum of the squares, rounded down
    as above. *)
Definition example_math : MathLib :=
  {| sin := fun _ => 1%Q; pi := 3.14%Q;
     hypot := fun dx dy => sqrt_down (dx * dx + dy * dy) |}.

Definition example_rng : RNG := {| samples := fun _ => 0.5%Q; cursor := 0%nat |}.

(** The terrain generated from them: 400 samples of height 190. *)
Definition example_terrain : Terrain :=
  (Terrain_init example_math default_config example_rng).1.

(** The straight-line distance between two combatants, as the code
    computes it: [math.hypot(a.x - b.x, a.y - b.y)]. *)
Definition distance (m : MathLib) (a b : Ant) : Q :=
  hypot m (x a - x b) (y a - y b).

(** That distance exceeds [r]. *)
Definition distance_exceeds (m : MathLib) (a b : Ant) (r : Q) : Prop :=
  (r < distance m a b)%Q.

(** The calls that reach a combatant's health: [take_damage],
    [apply_effect], and the [update] of one of its effects. *)
Inductive HealthCall :=
| CallTakeDamage (amount : Q)
| CallApplyEffect (effect_type : string) (duration : Q)
| CallEffectUpdate (dt : Q) (e : StatusEffect).

Definition run_call (a : Ant) (c : HealthCall) : Ant :=
  match c with
  | CallTakeDamage amount => take_damage amount a
  | CallApplyEffect ty d => apply_effect ty d a
  | CallEffectUpdate dt e => (StatusEffect_update dt e a).2
  end.

(** What [update(dt)] leaves of an effect, and what it does to its holder. *)
Definition effect_after (dt : Q) (e : StatusEffect) : StatusEffect :=
  match e with
  | PlainEffect d r => PlainEffect d (r - dt)
  | AcidEffect d r dps => AcidEffect d (r - dt) dps
  end.

Definition holder_after (dt : Q) (e : StatusEffect) (a : Ant) : Ant :=
  match e with
  | PlainEffect _ _ => a
  | AcidEffect _ _ dps => take_damage (inject_Z dps * dt) a
  end.

(** The world after a successful activation of [ab] on [target]. *)
Definition world_after_hit (ab : Ability) (target : Who) (w : World) : World :=
  let w := modify target (take_damage (inject_Z (damage ab))) w in
  match kind ab with
  | BiteAbility => w
  | AcidSprayAbility => modify target (apply_effect "acid" 3.0) w
  end.

(** Two combatants ten units apart, standing on the example terrain. *)
Definition example_world : World :=
  {| player := Ant_init 100 410 BLACK false;
     enemy := Ant_init 110 410 BLUE true |}.

(** The same with the player knocked out. *)
Definition example_world_dead_player : World :=
  modify Player (fun a => set_is_alive false (set_health 0 a)) example_world.

(** Health and alive flag, the part of a combatant that damage touches. *)
Definition vital (a : Ant) : Q * bool := (health a, is_alive a).

(** A player carrying one acid effect with 0.3 s to go and one with 2 s. *)
Definition example_acid_player : Ant :=
  set_active_effects [AcidEffect 3.0 0.3 5; AcidEffect 3.0 2.0 5]
                     (Ant_init 100 410 BLACK false).

(** The opponent controller of the example match, about to attack. *)
Definition example_attacker : AIController :=
  set_state attack 2.0 (AIController_init Enemy default_config).

(** A projectile one step above the ground, right over the enemy. *)
Definition example_projectile : Projectile :=
  Projectile_init 110 409 (0%Q, 0.5%Q).

(** The example match. *)
Definition example_game : Game :=
  {| g_config := default_config; g_state := PLAYING;
     terrain := example_terrain; world := example_world;
     ai_controller := example_attacker;
     projectile := Some example_projectile; charging_power := 0 |}.

(** ** Input, events and the rest of [Game] *)

(** The key codes that the game looks at. *)
Inductive Key := K_LEFT | K_RIGHT | K_z | K_x | K_SPACE | K_ESCAPE | K_other (code : Z).

(** The events of [pygame.event.get()], by [event.type]. *)
Inductive Event := QUIT | KEYDOWN (key : Key) | KEYUP (key : Key) | OTHER_EVENT.

Definition set_world (w : World) (gm : Game) : Game :=
  {| g_config := g_config gm; g_state := g_state gm; terrain := terrain gm;
     world := w; ai_controller := ai_controller gm;
     projectile := projectile gm; charging_power := charging_power gm |}.

Definition set_g_state (s : GameState) (gm : Game) : Game :=
  {| g_config := g_config gm; g_state := s; terrain := terrain gm;
     world := world gm; ai_controller := ai_controller gm;
     projectile := projectile gm; charging_power := charging_power gm |}.

Definition set_charging_power (c : Q) (gm : Game) : Game :=
  {| g_config := g_config gm; g_state := g_state gm; terrain := terrain gm;
     world := world gm; ai_controller := ai_controller gm;
     projectile := projectile gm; charging_power := c |}.

(** [Game.__init__], without the window, the clock and the font. *)
Definition Game_init (m : MathLib) (g : RNG) : Game * RNG :=
  let cfg := default_config in
  let '(t, g) := Terrain_init m cfg g in
  ({| g_config := cfg; g_state := MENU; terrain := t;
      world :=
        {| player := Ant_init 100 (inject_Z (SCREEN_HEIGHT cfg - 150)) BLACK false;
           enemy := Ant_init (inject_Z (SCREEN_WIDTH cfg - 150))
                             (inject_Z (SCREEN_HEIGHT cfg - 150)) BLUE true |};
      ai_controller := AIController_init Enemy cfg;
      projectile := None; charging_power := 0 |}, g).


(** The event loop of [Game.handle_game_over]: the space bar re-runs
    [__init__] and returns at once. *)
Fixpoint handle_game_over (m : MathLib) (events : list Event) (gm : Game) (g : RNG)
  : bool * Game * RNG :=
  match events with
  | [] => (true, gm, g)
  | QUIT :: _ => (false, gm, g)
  | KEYDOWN K_SPACE :: _ => let '(gm', g') := Game_init m g in (true, gm', g')
  | KEYDOWN K_ESCAPE :: _ => (false, gm, g)
  | _ :: rest => handle_game_over m rest gm g
  end.

(** The winner line of [Game.handle_game_over]. *)
Definition winner_text (gm : Game) : string :=
  if Qle_bool (health (enemy (world gm))) 0 then "Player Wins!" else "AI Wins!".

(** [Game.handle_input] on the key state of [pygame.key.get_pressed()]. *)
Definition handle_input (m : MathLib) (keys : Key -> bool) (gm : Game) : Game :=
  let w := world gm in
  let w :=
    if keys K_LEFT then
      modify Player
        (fun a => set_walking true (set_direction (-1) (set_x (x a - 5) a))) w
    else if keys K_RIGHT then
      modify Player
        (fun a => set_walking true (set_direction 1 (set_x (x a + 5) a))) w
    else modify Player (set_walking false) w in
  let w := if keys K_z then (use_ability m "bite" Player Enemy w).2 else w in
  let w := if keys K_x then (use_ability m "acid_spray" Player Enemy w).2 else w in
  let c :=
    if keys K_SPACE then Py.min (charging_power gm + 0.5) 20
    else charging_power gm in
  let w :=
    modify Player
      (fun a =>
         set_x (Py.max 10 (Py.min (inject_Z (SCREEN_WIDTH (g_config gm) - 10)) (x a))) a)
      w in
  set_charging_power c (set_world w gm).

(** [n] calls of [Projectile.update]. *)
Definition fly (cfg : GameConfig) (n : nat) (p : Projectile) : Projectile :=
  Nat.iter n (Projectile_update cfg) p.

(** Every effect deals damage at a non-negative rate. *)
Definition rates_ok (effects : list StatusEffect) : Prop :=
  Forall (fun e => (0 <= damage_rate e)%Q) effects.

(** What a match keeps true from frame to frame. *)
Definition game_ok (gm : Game) : Prop :=
  config_ok (config (terrain gm)) /\ terrain_ok (terrain gm).


(** Everything of a combatant that damage and effects leave alone. *)
Definition body (a : Ant)
  : Q * Q * (Q * Q) * Z * bool * Z * Q * gmap string Ability * (Z * Z * Z) * Z * bool :=
  (x a, y a, velocity a, direction a, walking a, animation_frame a,
   animation_timer a, abilities a, color a, max_health a, is_ai a).

(** The events that make a menu loop answer [False], and the one that
    starts or restarts a match. *)
Definition is_quit (e : Event) : bool :=
  match e with QUIT | KEYDOWN K_ESCAPE => true | _ => false end.

Definition is_start (e : Event) : bool :=
  match e with KEYDOWN K_SPACE => true | _ => false end.

(** A float far from the largest double (about [2 ^ 1024]): sums of a
    few such numbers are finite doubles, so that [int()] of them cannot
    raise [OverflowError]. *)
Definition float_safe (q : Q) : Prop := (Py.abs q <= inject_Z (2 ^ 1000))%Q.

(** The numbers that [Ant.update] adds before it calls [int()]. *)
Definition ant_float_safe (a : Ant) : Prop :=
  float_safe (x a) /\ float_safe (velocity a).1.

(** The numbers that [Projectile.update] adds before [Game.update] calls
    [int()] on the position. *)
Definition projectile_float_safe (cfg : GameConfig) (p : Projectile) : Prop :=
  float_safe (p_x p) /\ float_safe (p_y p)
  /\ float_safe (p_velocity p).1 /\ float_safe (p_velocity p).2
  /\ float_safe (GRAVITY cfg).

(** A match whose positions and speeds are all of that kind. *)
Definition game_float_safe (gm : Game) : Prop :=
  ant_float_safe (player (world gm)) /\ ant_float_safe (enemy (world gm))
  /\ (forall p, projectile gm = Some p -> active p = true ->
       projectile_float_safe (g_config gm) p).

(** * Properties *)

(** ** Numeric lemmas *)

Lemma Qltb_lt (a b : Q) : Py.Qltb a b = true <-> (a < b)%Q.
Proof.
  unfold Py.Qltb. rewrite negb_true_iff, <- not_true_iff_false, Qle_bool_iff.
  split; [apply Qnot_le_lt | apply Qlt_not_le].
Qed.

Lemma Qltb_ge (a b : Q) : Py.Qltb a b = false <-> (b <= a)%Q.
Proof.
  unfold Py.Qltb. rewrite negb_false_iff. apply Qle_bool_iff.
Qed.

Lemma Qle_bool_gt (a b : Q) : Qle_bool a b = false <-> (b < a)%Q.
Proof.
  rewrite <- not_true_iff_false, Qle_bool_iff.
  split; [apply Qnot_le_lt | apply Qlt_not_le].
Qed.

Lemma max_lower (a b : Q) : (b <= Py.max a b)%Q.
Proof.
  unfold Py.max. destruct (Py.Qltb a b) eqn:E.
  - apply Qle_refl.
  - now apply Qltb_ge.
Qed.

Lemma max_upper (a b c : Q) : (a <= c)%Q -> (b <= c)%Q -> (Py.max a b <= c)%Q.
Proof. unfold Py.max. now destruct (Py.Qltb a b). Qed.

Lemma min_upper (a b : Q) : (Py.min a b <= b)%Q.
Proof.
  unfold Py.min. destruct (Py.Qltb b a) eqn:E.
  - apply Qle_refl.
  - now apply Qltb_ge.
Qed.

Lemma min_lower (a b c : Q) : (c <= a)%Q -> (c <= b)%Q -> (c <= Py.min a b)%Q.
Proof. unfold Py.min. now destruct (Py.Qltb b a). Qed.

(** Truncation keeps a float between two integers that bound it. *)
Lemma int_between (lo hi : Z) (q : Q) :
  (inject_Z lo <= q)%Q -> (q <= inject_Z hi)%Q -> lo <= Py.int q <= hi.
Proof.
  destruct q as [n d]. unfold Qle, Py.int. simpl. intros Hlo Hhi.
  pose proof (Z.quot_rem' n (Z.pos d)) as Hqr.
  destruct (Z_le_gt_dec 0 n) as [Hn | Hn].
  - pose proof (Z.rem_bound_pos n (Z.pos d) Hn ltac:(lia)). nia.
  - pose proof (Z.rem_bound_pos_neg n (Z.pos d) ltac:(lia) ltac:(lia)). nia.
Qed.

Lemma height_reduction_floor (radius dist : Z) :
  dist <= radius -> height_reduction radius dist = (radius - dist) / 2.
Proof.
  intros H. unfold height_reduction, Py.int. simpl.
  rewrite Z.quot_div_nonneg by lia.
  change (Z.pos (1 * 10)) with (2 * 5). apply Z.div_mul_cancel_r; lia.
Qed.

Lemma height_reduction_nonneg (radius dist : Z) :
  dist <= radius -> 0 <= height_reduction radius dist.
Proof.
  intros H. rewrite height_reduction_floor by assumption.
  apply Z.div_pos; lia.
Qed.

Lemma ceil_div_alt (a b : Z) : 0 < b -> ceil_div a b = (a + b - 1) / b.
Proof.
  intros Hb. unfold ceil_div.
  pose proof (Z.div_mod (- a) b ltac:(lia)).
  pose proof (Z.mod_pos_bound (- a) b Hb).
  pose proof (Z.div_mod (a + b - 1) b ltac:(lia)).
  pose proof (Z.mod_pos_bound (a + b - 1) b Hb).
  nia.
Qed.

Lemma length_range_from (step stop : Z) (fuel : nat) (x0 : Z) :
  0 < step -> stop - x0 <= Z.of_nat fuel ->
  length (Py.range_from fuel x0 stop step)
  = Z.to_nat ((stop - x0 + step - 1) / step).
Proof.
  intros Hstep. revert x0. induction fuel as [|fuel IH]; intros x0 Hfuel.
  - simpl. assert ((stop - x0 + step - 1) / step <= 0); [|lia].
    apply Z.lt_succ_r, Z.div_lt_upper_bound; lia.
  - simpl. destruct (x0 <? stop) eqn:E.
    + apply Z.ltb_lt in E. simpl. rewrite IH by lia.
      replace (stop - x0 + step - 1) with ((stop - (x0 + step) + step - 1) + 1 * step) by lia.
      rewrite Z.div_add by lia.
      assert (0 <= (stop - (x0 + step) + step - 1) / step) by (apply Z.div_pos; lia).
      lia.
    + apply Z.ltb_ge in E. simpl.
      assert ((stop - x0 + step - 1) / step <= 0); [|lia].
      apply Z.lt_succ_r, Z.div_lt_upper_bound; lia.
Qed.

(** [range(0, stop, step)] has [ceil(stop / step)] elements: the fuel of
    [Py.range] never runs out. *)
Lemma length_range (stop step : Z) :
  0 < step -> 0 <= stop ->
  Z.of_nat (length (Py.range 0 stop step)) = ceil_div stop step.
Proof.
  intros Hstep Hstop. unfold Py.range.
  rewrite length_range_from by lia.
  rewrite ceil_div_alt by assumption. rewrite Z.sub_0_r.
  rewrite Z2Nat.id; [reflexivity | apply Z.div_pos; lia].
Qed.

(** ** Terrain *)

Lemma crater_step_lookup cfg x0 radius (hm : list Z) (i : Z) (j : nat) :
  crater_step cfg x0 radius hm i !! j
  = if decide (j = Z.to_nat i)
    then crater_sample cfg x0 radius i <$> hm !! j
    else hm !! j.
Proof.
  unfold crater_step, crater_sample.
  destruct (Z.abs (x0 - i * TERRAIN_RESOLUTION cfg) <? radius) eqn:E.
  - destruct (hm !! Z.to_nat i) as [h|] eqn:Hh.
    + case_decide as Hj.
      * subst j. rewrite Hh. simpl. apply list_lookup_insert_eq.
        eapply lookup_lt_Some; eassumption.
      * now apply list_lookup_insert_ne.
    + case_decide as Hj; [subst j; now rewrite Hh | reflexivity].
  - case_decide; [|reflexivity]. now destruct (hm !! j).
Qed.

Lemma crater_step_length cfg x0 radius (hm : list Z) (i : Z) :
  length (crater_step cfg x0 radius hm i) = length hm.
Proof.
  unfold crater_step.
  destruct (_ <? radius); [|reflexivity].
  destruct (hm !! Z.to_nat i); [apply length_insert | reflexivity].
Qed.

Lemma foldl_crater_length cfg x0 radius (l : list Z) (hm : list Z) :
  length (foldl (crater_step cfg x0 radius) hm l) = length hm.
Proof.
  revert hm. induction l as [|i l IH]; intros hm; simpl; [reflexivity|].
  rewrite IH. apply crater_step_length.
Qed.

(** The loop touches each visited index once, and nothing else. *)
Lemma foldl_crater_lookup cfg x0 radius (l : list Z) :
  NoDup l -> Forall (fun i => 0 <= i) l ->
  forall (hm : list Z) (j : nat),
    foldl (crater_step cfg x0 radius) hm l !! j
    = if decide (Z.of_nat j ∈ l)
      then crater_sample cfg x0 radius (Z.of_nat j) <$> hm !! j
      else hm !! j.
Proof.
  induction l as [|i l IH]; intros Hnd Hpos hm j; cbn [foldl].
  - rewrite decide_False; [reflexivity | apply not_elem_of_nil].
  - inversion Hnd as [|? ? Hni Hnd']; subst.
    inversion Hpos as [|? ? Hi Hpos']; subst.
    rewrite IH by assumption. rewrite crater_step_lookup.
    destruct (decide (j = Z.to_nat i)) as [Hj | Hj].
    + assert (i = Z.of_nat j) as -> by lia.
      rewrite decide_False by assumption.
      rewrite decide_True by (apply elem_of_cons; now left). reflexivity.
    + destruct (decide (Z.of_nat j ∈ l)) as [Hin | Hnin].
      * rewrite decide_True by (apply elem_of_cons; now right). reflexivity.
      * rewrite decide_False; [reflexivity|].
        intros Hc. apply elem_of_cons in Hc as [Hc | Hc]; [lia | contradiction].
Qed.

(** The indices of the loop are indices of the list: no [IndexError]. *)
Lemma crater_indices_valid cfg (hm : list Z) x0 radius (i : Z) :
  i ∈ crater_indices cfg hm x0 radius -> 0 <= i < Z.of_nat (length hm).
Proof.
  unfold crater_indices, impact_start, impact_end.
  rewrite elem_of_seqZ. lia.
Qed.

(** Every sample within the radius is inside the bounds of the loop. *)
Lemma crater_indices_cover cfg (hm : list Z) x0 radius (j : nat) :
  0 < TERRAIN_RESOLUTION cfg ->
  (j < length hm)%nat ->
  Z.abs (x0 - Z.of_nat j * TERRAIN_RESOLUTION cfg) < radius ->
  Z.of_nat j ∈ crater_indices cfg hm x0 radius.
Proof.
  intros HR Hj Hd. unfold crater_indices, impact_start, impact_end.
  rewrite elem_of_seqZ.
  set (R := TERRAIN_RESOLUTION cfg) in *.
  pose proof (Z.div_mod x0 R ltac:(lia)).
  pose proof (Z.mod_pos_bound x0 R HR).
  pose proof (Z.div_mod radius R ltac:(lia)).
  pose proof (Z.mod_pos_bound radius R HR).
  pose proof (Z.div_mod (x0 + radius) R ltac:(lia)).
  pose proof (Z.mod_pos_bound (x0 + radius) R HR).
  assert (x0 / R - radius / R <= Z.of_nat j) by nia.
  assert (Z.of_nat j < (x0 + radius) / R + 1) by nia.
  lia.
Qed.

(** The height map after a crater, sample by sample. *)
Lemma crater_lookup (t : Terrain) x0 y0 radius (j : nat) :
  0 < TERRAIN_RESOLUTION (config t) ->
  height_map (crater t x0 y0 radius) !! j
  = crater_sample (config t) x0 radius (Z.of_nat j) <$> height_map t !! j.
Proof.
  intros HR. unfold crater. simpl.
  rewrite foldl_crater_lookup.
  - case_decide as Hin; [reflexivity|].
    destruct (height_map t !! j) as [h|] eqn:Hh; [|reflexivity].
    simpl. f_equal. unfold crater_sample.
    destruct (_ <? radius) eqn:E; [|reflexivity].
    exfalso. apply Hin, crater_indices_cover; [assumption| |now apply Z.ltb_lt].
    eapply lookup_lt_Some; eassumption.
  - apply NoDup_seqZ.
  - apply Forall_forall. intros i Hi.
    apply crater_indices_valid in Hi. lia.
Qed.

Lemma crater_length (t : Terrain) x0 y0 radius :
  length (height_map (crater t x0 y0 radius)) = length (height_map t).
Proof. apply foldl_crater_length. Qed.

Lemma crater_sample_le cfg x0 radius i h :
  MIN_GROUND_HEIGHT cfg <= h -> crater_sample cfg x0 radius i h <= h.
Proof.
  intros Hh. unfold crater_sample.
  set (dist := Z.abs (x0 - i * TERRAIN_RESOLUTION cfg)).
  destruct (dist <? radius) eqn:E; [|lia].
  apply Z.ltb_lt in E.
  pose proof (height_reduction_nonneg radius dist ltac:(lia)). lia.
Qed.

Lemma crater_sample_bounds cfg x0 radius i h :
  MIN_GROUND_HEIGHT cfg <= h <= MAX_GROUND_HEIGHT cfg ->
  MIN_GROUND_HEIGHT cfg <= crater_sample cfg x0 radius i h <= MAX_GROUND_HEIGHT cfg.
Proof.
  intros Hh. pose proof (crater_sample_le cfg x0 radius i h ltac:(lia)).
  split; [|lia]. unfold crater_sample. destruct (_ <? radius); lia.
Qed.

Lemma terrain_height_bounds m cfg phase x0 :
  MIN_GROUND_HEIGHT cfg <= MAX_GROUND_HEIGHT cfg ->
  MIN_GROUND_HEIGHT cfg <= terrain_height m cfg phase x0 <= MAX_GROUND_HEIGHT cfg.
Proof.
  intros Hcfg. unfold terrain_height. apply int_between.
  - apply min_lower; [apply max_lower | now rewrite <- Zle_Qle].
  - apply min_upper.
Qed.

Lemma generate_heights_ok m cfg phase :
  config_ok cfg ->
  terrain_ok {| config := cfg; height_map := generate_heights m cfg phase |}.
Proof.
  intros (HR & HW & Hmm). split; simpl.
  - unfold generate_heights. apply Forall_fmap, Forall_forall.
    intros x0 _. now apply terrain_height_bounds.
  - unfold generate_heights. rewrite length_fmap. now apply length_range.
Qed.

Lemma Terrain_init_ok m cfg g :
  config_ok cfg ->
  config (Terrain_init m cfg g).1 = cfg /\ terrain_ok (Terrain_init m cfg g).1.
Proof.
  intros Hcfg. unfold Terrain_init, generate_terrain, uniform, random. simpl.
  split; [reflexivity | now apply generate_heights_ok].
Qed.

Lemma crater_ok (t : Terrain) x0 y0 radius :
  0 < TERRAIN_RESOLUTION (config t) ->
  terrain_ok t -> terrain_ok (crater t x0 y0 radius).
Proof.
  intros HR [Hb Hlen]. split.
  - apply Forall_lookup. intros j h' Hj.
    rewrite crater_lookup in Hj by assumption.
    destruct (height_map t !! j) as [h|] eqn:Hh; [|discriminate].
    simpl in Hj. injection Hj as <-.
    apply crater_sample_bounds.
    eapply (proj1 (Forall_lookup _ _) Hb); eassumption.
  - rewrite crater_length. exact Hlen.
Qed.

Lemma reachable_ok m cfg t :
  config_ok cfg -> reachable m cfg t -> config t = cfg /\ terrain_ok t.
Proof.
  intros Hcfg Hr. induction Hr as [g | t x0 y0 radius g Hr [IHc IHok]].
  - now apply Terrain_init_ok.
  - split; [exact IHc|]. unfold apply_destruction. simpl.
    apply crater_ok; [|assumption]. rewrite IHc. apply Hcfg.
Qed.

(** One crater on a height field whose samples are at least the minimum. *)
Lemma crater_one (t : Terrain) cx cy radius (i : nat) (h : Z) :
  0 < TERRAIN_RESOLUTION (config t) ->
  MIN_GROUND_HEIGHT (config t) <= h ->
  height_map t !! i = Some h ->
  let dist := Z.abs (cx - Z.of_nat i * TERRAIN_RESOLUTION (config t)) in
  exists h',
    height_map (crater t cx cy radius) !! i = Some h'
    /\ (dist < radius ->
        h' = Z.max (MIN_GROUND_HEIGHT (config t)) (h - (radius - dist) / 2))
    /\ (radius <= dist -> h' = h)
    /\ MIN_GROUND_HEIGHT (config t) <= h' <= h.
Proof.
  intros HR Hmin Hh dist.
  exists (crater_sample (config t) cx radius (Z.of_nat i) h).
  split; [rewrite crater_lookup by assumption; now rewrite Hh|].
  pose proof (crater_sample_le (config t) cx radius (Z.of_nat i) h Hmin) as Hle.
  unfold crater_sample in *. fold dist in Hle |- *.
  destruct (dist <? radius) eqn:E.
  - apply Z.ltb_lt in E. rewrite height_reduction_floor in * by lia.
    repeat split; try lia.
  - apply Z.ltb_ge in E. repeat split; lia.
Qed.

Lemma apply_craters_cons c cs t g :
  apply_craters (c :: cs) t g
  = apply_craters cs (apply_destruction t c.1.1 c.1.2 c.2 g).1
                     (apply_destruction t c.1.1 c.1.2 c.2 g).2.
Proof. destruct c as [[cx cy] r]. reflexivity. Qed.

(** Any number of craters only lowers or preserves a sample. *)
Lemma craters_lower (cs : list (Z * Z * Z)) :
  forall (t : Terrain) (g : RNG) (i : nat) (h : Z),
    0 < TERRAIN_RESOLUTION (config t) ->
    MIN_GROUND_HEIGHT (config t) <= h ->
    height_map t !! i = Some h ->
    exists h', height_map (apply_craters cs t g).1 !! i = Some h'
               /\ MIN_GROUND_HEIGHT (config t) <= h' <= h.
Proof.
  induction cs as [|c cs IH]; intros t g i h HR Hmin Hh.
  - exists h. split; [exact Hh | lia].
  - rewrite apply_craters_cons.
    destruct (crater_one t c.1.1 c.1.2 c.2 i h HR Hmin Hh) as (h1 & H1 & _ & _ & Hb).
    destruct (IH (crater t c.1.1 c.1.2 c.2)
                 (apply_destruction t c.1.1 c.1.2 c.2 g).2 i h1) as (h2 & H2 & Hb2);
      [exact HR | simpl; lia | exact H1 |].
    exists h2. split; [exact H2 | simpl in Hb2; lia].
Qed.

(** C7. [apply_destruction(cx, cy, radius)] lowers every sample whose
    world-x is within [radius] of [cx] by [floor((radius - distance) * 0.5)],
    never below the minimum height; it leaves every sample at distance
    [radius] or more unchanged; and it never raises a sample, so that a
    sample after any sequence of craters is at most what it was.  The
    samples are those of a height field that respects its minimum. *)
Theorem apply_destruction_crater
    (t : Terrain) (cx cy radius : Z) (g : RNG) (cs : list (Z * Z * Z))
    (i : nat) (h : Z) :
  0 < TERRAIN_RESOLUTION (config t) ->
  Forall (fun s => MIN_GROUND_HEIGHT (config t) <= s) (height_map t) ->
  height_map t !! i = Some h ->
  let dist := Z.abs (cx - Z.of_nat i * TERRAIN_RESOLUTION (config t)) in
  (exists h',
      height_map (apply_destruction t cx cy radius g).1 !! i = Some h'
      /\ (dist < radius ->
          h' = Z.max (MIN_GROUND_HEIGHT (config t)) (h - (radius - dist) / 2))
      /\ (radius <= dist -> h' = h)
      /\ MIN_GROUND_HEIGHT (config t) <= h' <= h)
  /\ (exists h'',
         height_map (apply_craters cs t g).1 !! i = Some h'' /\ h'' <= h).
Proof.
  intros HR Hall Hh dist.
  assert (Hmin : MIN_GROUND_HEIGHT (config t) <= h).
  { eapply (proj1 (Forall_lookup _ _) Hall); eassumption. }
  split.
  - apply crater_one; assumption.
  - destruct (craters_lower cs t g i h HR Hmin Hh) as (h'' & H1 & H2).
    exists h''. split; [exact H1 | lia].
Qed.

(** C8. Whatever the phase, the generated height field has
    [ceil(width / resolution)] samples, all between the minimum and the
    maximum height, and every terrain reached from a generated one by
    craters still has. *)
Theorem terrain_bounds_invariant
    (m : MathLib) (cfg : GameConfig) (phase : Q) (t : Terrain) :
  config_ok cfg ->
  reachable m cfg t ->
  (Forall (fun h => MIN_GROUND_HEIGHT cfg <= h <= MAX_GROUND_HEIGHT cfg)
          (generate_heights m cfg phase)
   /\ Z.of_nat (length (generate_heights m cfg phase))
      = ceil_div (SCREEN_WIDTH cfg) (TERRAIN_RESOLUTION cfg))
  /\ (Forall (fun h => MIN_GROUND_HEIGHT cfg <= h <= MAX_GROUND_HEIGHT cfg)
             (height_map t)
      /\ Z.of_nat (length (height_map t))
         = ceil_div (SCREEN_WIDTH cfg) (TERRAIN_RESOLUTION cfg)).
Proof.
  intros Hcfg Hr. split.
  - exact (generate_heights_ok m cfg phase Hcfg).
  - destruct (reachable_ok m cfg t Hcfg Hr) as [Hc Hok].
    unfold terrain_ok in Hok. now rewrite Hc in Hok.
Qed.

Lemma index_in_range {A} (l : list A) (i : Z) :
  0 <= i < Z.of_nat (length l) -> exists v, Py.index l i = Some v /\ l !! Z.to_nat i = Some v.
Proof.
  intros Hi. unfold Py.index.
  destruct (i <? 0) eqn:E; [apply Z.ltb_lt in E; lia|]. rewrite E.
  destruct (lookup_lt_is_Some_2 l (Z.to_nat i) ltac:(lia)) as [v Hv].
  exists v. now rewrite Hv.
Qed.

Lemma get_height_at_outside (t : Terrain) (x0 : Z) :
  x0 < 0 \/ SCREEN_WIDTH (config t) <= x0 ->
  get_height_at t x0 = Some (MIN_GROUND_HEIGHT (config t)).
Proof.
  intros H. unfold get_height_at.
  destruct (x0 <? 0) eqn:E1; [reflexivity|].
  destruct (SCREEN_WIDTH (config t) <=? x0) eqn:E2; [reflexivity|].
  apply Z.ltb_ge in E1. apply Z.leb_gt in E2. lia.
Qed.

Lemma get_height_at_inside (t : Terrain) (x0 : Z) :
  config_ok (config t) -> terrain_ok t ->
  0 <= x0 < SCREEN_WIDTH (config t) ->
  exists h,
    get_height_at t x0 = Some h
    /\ height_map t
       !! Z.to_nat (Z.min (Z.of_nat (length (height_map t)) - 1)
                          (x0 / TERRAIN_RESOLUTION (config t))) = Some h.
Proof.
  intros (HR & HW & _) [_ Hlen] Hx. unfold get_height_at.
  destruct (x0 <? 0) eqn:E1; [apply Z.ltb_lt in E1; lia|].
  destruct (SCREEN_WIDTH (config t) <=? x0) eqn:E2; [apply Z.leb_le in E2; lia|].
  simpl. apply index_in_range.
  assert (1 <= Z.of_nat (length (height_map t))).
  { rewrite Hlen, ceil_div_alt by assumption.
    apply Z.div_le_lower_bound; lia. }
  assert (0 <= x0 / TERRAIN_RESOLUTION (config t)) by (apply Z.div_pos; lia).
  lia.
Qed.

(** Every lookup on a terrain of a match succeeds. *)
Lemma get_height_at_total (t : Terrain) (x0 : Z) :
  config_ok (config t) -> terrain_ok t -> exists h, get_height_at t x0 = Some h.
Proof.
  intros Hc Hok.
  destruct (Z_lt_le_dec x0 0) as [Hx | Hx];
    [eexists; apply get_height_at_outside; lia|].
  destruct (Z_lt_le_dec x0 (SCREEN_WIDTH (config t))) as [Hx' | Hx'];
    [|eexists; apply get_height_at_outside; lia].
  destruct (get_height_at_inside t x0 Hc Hok ltac:(lia)) as (h & Hh & _).
  now exists h.
Qed.

Lemma check_collision_eq (t : Terrain) (px py h : Z) :
  get_height_at t px = Some h ->
  check_collision t px py
  = Some (bool_decide (0 <= px < SCREEN_WIDTH (config t)
                       /\ 0 <= py < SCREEN_HEIGHT (config t)
                       /\ SCREEN_HEIGHT (config t) - h <= py)).
Proof.
  intros Hh. unfold check_collision. rewrite Hh.
  destruct (px <? 0) eqn:E1; simpl.
  { apply Z.ltb_lt in E1. rewrite bool_decide_eq_false_2; [reflexivity | lia]. }
  destruct (SCREEN_WIDTH (config t) <=? px) eqn:E2; simpl.
  { apply Z.leb_le in E2. rewrite bool_decide_eq_false_2; [reflexivity | lia]. }
  destruct (py <? 0) eqn:E3; simpl.
  { apply Z.ltb_lt in E3. rewrite bool_decide_eq_false_2; [reflexivity | lia]. }
  destruct (SCREEN_HEIGHT (config t) <=? py) eqn:E4; simpl.
  { apply Z.leb_le in E4. rewrite bool_decide_eq_false_2; [reflexivity | lia]. }
  apply Z.ltb_ge in E1, E3. apply Z.leb_gt in E2, E4. f_equal.
  destruct (SCREEN_HEIGHT (config t) - h <=? py) eqn:E5.
  - apply Z.leb_le in E5. rewrite bool_decide_eq_true_2; [reflexivity | lia].
  - apply Z.leb_gt in E5. rewrite bool_decide_eq_false_2; [reflexivity | lia].
Qed.

(** On a terrain of a match the collision test always answers. *)
Lemma check_collision_total (t : Terrain) (px py : Z) :
  config_ok (config t) -> terrain_ok t ->
  exists hit, check_collision t px py = Some hit.
Proof.
  intros Hc Hok. destruct (get_height_at_total t px Hc Hok) as [h Hh].
  eexists. exact (check_collision_eq t px py h Hh).
Qed.

(** C9, as the code has it.  On a terrain of a match [check_collision]
    answers [True] iff the point is on the screen, [0 <= x < width] and
    [0 <= y < height], and [y >= screen height - get_height_at(x)]; a
    point off the screen is never grounded.  [get_height_at(x)] is the
    sample at the bucket of [x] clamped to the last index for [x] in
    [0, width), and the minimum height elsewhere.  Both are functions of
    the terrain and the point alone. *)
Theorem check_collision_spec (t : Terrain) (px py : Z) :
  config_ok (config t) ->
  terrain_ok t ->
  exists h b,
    get_height_at t px = Some h
    /\ (px < 0 \/ SCREEN_WIDTH (config t) <= px -> h = MIN_GROUND_HEIGHT (config t))
    /\ (0 <= px < SCREEN_WIDTH (config t) ->
        height_map t
        !! Z.to_nat (Z.min (Z.of_nat (length (height_map t)) - 1)
                           (px / TERRAIN_RESOLUTION (config t))) = Some h)
    /\ check_collision t px py = Some b
    /\ (b = true <->
        0 <= px < SCREEN_WIDTH (config t)
        /\ 0 <= py < SCREEN_HEIGHT (config t)
        /\ SCREEN_HEIGHT (config t) - h <= py).
Proof.
  intros Hc Hok.
  destruct (get_height_at_total t px Hc Hok) as [h Hh].
  exists h. eexists.
  split; [exact Hh|]. split; [|split; [|split]].
  - intros Hout. rewrite get_height_at_outside in Hh by assumption. congruence.
  - intros Hin. destruct (get_height_at_inside t px Hc Hok Hin) as (h' & H1 & H2).
    congruence.
  - exact (check_collision_eq t px py h Hh).
  - apply bool_decide_eq_true.
Qed.

Lemma default_config_ok : config_ok default_config.
Proof. unfold config_ok. simpl. lia. Qed.

Example example_terrain_heights :
  height_map example_terrain = replicate 400 190.
Proof. vm_compute. reflexivity. Qed.

Example example_crater_heights :
  (fun l => (l !! 40%nat, l !! 45%nat, l !! 50%nat, l !! 59%nat, l !! 60%nat))
    (height_map (crater example_terrain 100 450 20))
  = (Some 190, Some 185, Some 180, Some 189, Some 190).
Proof. vm_compute. reflexivity. Qed.

(** The crater theorem at the sample under an impact at [x = 100]. *)
Lemma apply_destruction_crater_witness :
  exists h',
    height_map (apply_destruction example_terrain 100 450 20 example_rng).1 !! 50%nat
    = Some h'
    /\ h' = 180.
Proof.
  destruct (apply_destruction_crater example_terrain 100 450 20 example_rng
              [(100, 450, 20)] 50%nat 190) as [(h' & H1 & H2 & _) _].
  - simpl. lia.
  - refine (bool_decide_unpack _ _). vm_compute. exact I.
  - vm_compute. reflexivity.
  - exists h'. split; [exact H1|]. rewrite H2 by (vm_compute; reflexivity).
    vm_compute. reflexivity.
Defined.

(** The bounds theorem at the example terrain after one crater. *)
Lemma terrain_bounds_invariant_witness :
  Forall (fun h => 100 <= h <= 200)
         (height_map (apply_destruction example_terrain 100 450 20 example_rng).1)
  /\ length (height_map (apply_destruction example_terrain 100 450 20 example_rng).1)
     = 400%nat.
Proof.
  destruct (terrain_bounds_invariant example_math default_config 1
              (apply_destruction example_terrain 100 450 20 example_rng).1)
    as [_ [H1 H2]].
  - unfold config_ok. simpl. lia.
  - apply reachable_crater. unfold example_terrain. apply reachable_init.
  - split; [exact H1|]. apply Nat2Z.inj. rewrite H2. vm_compute. reflexivity.
Defined.

(** The collision theorem at a point in the air above the example terrain. *)
Lemma check_collision_spec_witness :
  check_collision example_terrain 100 300 = Some false.
Proof.
  destruct (check_collision_spec example_terrain 100 300) as (h & b & Hh & _ & _ & Hb & Hiff).
  - unfold config_ok. simpl. lia.
  - split; [refine (bool_decide_unpack _ _); vm_compute; exact I | vm_compute; reflexivity].
  - rewrite Hb. f_equal. destruct b; [|reflexivity].
    exfalso. destruct (proj1 Hiff eq_refl) as (_ & _ & H).
    assert (h = 190) as -> by (vm_compute in Hh; congruence).
    simpl in H. lia.
Defined.

(** C9 as stated fails off the screen: left of the arena the height is
    the minimum, 100, the ground line is at 500, and the point
    [(-5, 550)] lies below it, yet it is not grounded. *)
Lemma check_collision_off_screen :
  get_height_at example_terrain (-5) = Some 100
  /\ ~ (check_collision example_terrain (-5) 550 = Some true
        <-> 550 >= SCREEN_HEIGHT default_config - 100).
Proof.
  split; [vm_compute; reflexivity|].
  intros [_ H]. assert (Hc : check_collision example_terrain (-5) 550 = Some true).
  { apply H. simpl. lia. }
  vm_compute in Hc. discriminate.
Qed.

(** ** Cooldowns *)

Lemma Ability_update_running (dt : Q) (ab : Ability) :
  (0 < current_cooldown ab)%Q ->
  Ability_update dt ab = set_current_cooldown (current_cooldown ab - dt) ab.
Proof. intros H. unfold Ability_update. now rewrite (proj2 (Qltb_lt _ _) H). Qed.

Lemma Ability_update_ready (dt : Q) (ab : Ability) :
  (current_cooldown ab <= 0)%Q -> Ability_update dt ab = ab.
Proof. intros H. unfold Ability_update. now rewrite (proj2 (Qltb_ge _ _) H). Qed.

Lemma Ability_update_lower (bound dt : Q) (ab : Ability) :
  (0 <= dt)%Q -> (dt <= bound)%Q -> (- bound < current_cooldown ab)%Q ->
  (- bound < current_cooldown (Ability_update dt ab))%Q.
Proof.
  intros Hdt Hb Hc. destruct (Qlt_le_dec 0 (current_cooldown ab)) as [Hpos | Hle].
  - rewrite Ability_update_running by assumption. simpl. lra.
  - now rewrite Ability_update_ready.
Qed.

(** C3 as stated fails: a bite that was just used has 2.0 s to go; two
    ticks of 1.5 s leave -1.0, below zero. *)
Lemma cooldown_goes_negative :
  (0 <= 1.5)%Q
  /\ (current_cooldown
        (Ability_update 1.5
           (Ability_update 1.5
              (set_current_cooldown (cooldown BiteAbility_init) BiteAbility_init)))
      < 0)%Q.
Proof. split; [vm_compute; discriminate | vm_compute; reflexivity]. Qed.

(** C3, as the code has it.  For [dt >= 0], a tick of a cooldown that is
    above zero subtracts exactly [dt], with no floor at zero: the result
    may be negative, but is above [-dt].  A tick of a cooldown that is
    zero or less changes nothing.  Over ticks whose [dt] are between 0
    and [bound], a cooldown that starts above [-bound] stays above it. *)
Theorem cooldown_tick (ab : Ability) (dt bound : Q) (dts : list Q) :
  (0 <= dt)%Q ->
  Forall (fun d => 0 <= d /\ d <= bound)%Q dts ->
  (- bound < current_cooldown ab)%Q ->
  ((0 < current_cooldown ab)%Q ->
   current_cooldown (Ability_update dt ab) = (current_cooldown ab - dt)%Q
   /\ (- dt < current_cooldown (Ability_update dt ab))%Q)
  /\ ((current_cooldown ab <= 0)%Q -> Ability_update dt ab = ab)
  /\ (- bound < current_cooldown (foldl (fun ab d => Ability_update d ab) ab dts))%Q.
Proof.
  intros Hdt Hdts Hstart. split; [|split].
  - intros Hpos. rewrite Ability_update_running by assumption. simpl.
    split; [reflexivity | lra].
  - apply Ability_update_ready.
  - revert ab Hstart. induction Hdts as [|d dts [Hd0 Hdb] _ IH]; intros ab Hstart.
    + exact Hstart.
    + simpl. apply IH. now apply Ability_update_lower.
Qed.

Lemma cooldown_tick_witness :
  (- (2) < current_cooldown
             (foldl (fun ab d => Ability_update d ab)
                    (set_current_cooldown 2.0 BiteAbility_init) [1.5; 1.5; 1.5]))%Q.
Proof.
  apply (cooldown_tick (set_current_cooldown 2.0 BiteAbility_init) 1.5 2 [1.5; 1.5; 1.5])%Q.
  - vm_compute. discriminate.
  - repeat constructor; vm_compute; discriminate.
  - vm_compute. reflexivity.
Defined.

(** ** Damage *)

Lemma take_damage_dead (amount : Q) (a : Ant) :
  is_alive a = false -> take_damage amount a = a.
Proof. intros H. unfold take_damage. now rewrite H. Qed.

Lemma max_zero_nonneg (v : Q) : (0 <= Py.max 0 v)%Q.
Proof.
  unfold Py.max. destruct (Py.Qltb 0 v) eqn:E.
  - apply Qltb_lt in E. lra.
  - lra.
Qed.

Lemma take_damage_alive (amount : Q) (a : Ant) :
  is_alive a = true ->
  health (take_damage amount a) = Py.max 0 (health a - amount)
  /\ is_alive (take_damage amount a) = negb (Qle_bool (Py.max 0 (health a - amount)) 0).
Proof.
  intros H. unfold take_damage. rewrite H. simpl.
  destruct (Qle_bool (Py.max 0 (health a - amount)) 0); simpl; auto.
Qed.

Lemma take_damage_health_nonneg (amount : Q) (a : Ant) :
  (0 <= health a)%Q -> (0 <= health (take_damage amount a))%Q.
Proof.
  intros H. destruct (is_alive a) eqn:E.
  - rewrite (proj1 (take_damage_alive amount a E)). apply max_zero_nonneg.
  - now rewrite take_damage_dead.
Qed.

Lemma apply_effect_health (ty : string) (d : Q) (a : Ant) :
  health (apply_effect ty d a) = health a
  /\ is_alive (apply_effect ty d a) = is_alive a.
Proof. unfold apply_effect. now destruct (String.eqb ty "acid"). Qed.

Lemma run_call_health_nonneg (c : HealthCall) (a : Ant) :
  (0 <= health a)%Q -> (0 <= health (run_call a c))%Q.
Proof.
  intros H. destruct c as [amount | ty d | dt e]; simpl.
  - now apply take_damage_health_nonneg.
  - now rewrite (proj1 (apply_effect_health ty d a)).
  - destruct e; simpl; [assumption | now apply take_damage_health_nonneg].
Qed.

Lemma run_call_dead (c : HealthCall) (a : Ant) :
  is_alive a = false ->
  health (run_call a c) = health a /\ is_alive (run_call a c) = false.
Proof.
  intros H. destruct c as [amount | ty d | dt e]; simpl.
  - now rewrite take_damage_dead.
  - destruct (apply_effect_health ty d a) as [-> ->]. auto.
  - destruct e; simpl; [auto | now rewrite take_damage_dead].
Qed.

(** C5. Over any sequence of [take_damage] calls (and effect calls) on a
    combatant the health never goes below 0; one [take_damage] on a live
    combatant clears the alive flag exactly when the health it leaves is
    0; and once the flag is clear, these calls leave health and flag as
    they are. *)
Theorem damage_floor (a : Ant) (amount : Q) (calls : list HealthCall) :
  (0 <= health a)%Q ->
  (0 <= health (foldl run_call a calls))%Q
  /\ (is_alive a = true ->
      (is_alive (take_damage amount a) = false
       <-> (health (take_damage amount a) == 0)%Q))
  /\ (is_alive a = false ->
      health (foldl run_call a calls) = health a
      /\ is_alive (foldl run_call a calls) = false).
Proof.
  intros Hh. split; [|split].
  - revert a Hh. induction calls as [|c calls IH]; intros a Hh; simpl.
    + exact Hh.
    + apply IH. now apply run_call_health_nonneg.
  - intros Halive. destruct (take_damage_alive amount a Halive) as [-> ->].
    pose proof (max_zero_nonneg (health a - amount)) as Hge.
    split; intros H.
    + apply negb_false_iff, Qle_bool_iff in H. lra.
    + apply negb_false_iff, Qle_bool_iff. lra.
  - revert a Hh. induction calls as [|c calls IH]; intros a Hh Hdead; simpl.
    + auto.
    + destruct (run_call_dead c a Hdead) as [E1 E2].
      destruct (IH (run_call a c)) as [E3 E4];
        [now apply run_call_health_nonneg | assumption |].
      split; congruence.
Qed.

Lemma damage_floor_witness :
  (0 <= health
          (foldl run_call (Ant_init 100 450 BLACK false)
                 [CallTakeDamage 30; CallTakeDamage 80; CallApplyEffect "acid" 3;
                  CallTakeDamage 5]))%Q.
Proof.
  apply (damage_floor (Ant_init 100 450 BLACK false) 100
           [CallTakeDamage 30; CallTakeDamage 80; CallApplyEffect "acid" 3;
            CallTakeDamage 5]).
  vm_compute. discriminate.
Defined.
(** ** Abilities *)

Lemma distance_test_false (m : MathLib) (a b : Ant) (r : Q) :
  Qle_bool (hypot m (x a - x b) (y a - y b)) r = false <-> distance_exceeds m a b r.
Proof. unfold distance_exceeds, distance. apply Qle_bool_gt. Qed.

Lemma distance_test_true (m : MathLib) (a b : Ant) (r : Q) :
  Qle_bool (hypot m (x a - x b) (y a - y b)) r = true <-> ~ distance_exceeds m a b r.
Proof.
  rewrite <- distance_test_false. destruct (Qle_bool _ _); split; congruence.
Qed.

Lemma set_abilities_same (a : Ant) : set_abilities (abilities a) a = a.
Proof. now destruct a. Qed.

Lemma modify_same (r : Who) (f : Ant -> Ant) (w : World) :
  f (get w r) = get w r -> modify r f w = w.
Proof. destruct r, w; simpl; now intros ->. Qed.

Lemma activate_fails (m : MathLib) (ab : Ability) (user target : Who) (w : World) :
  (0 < current_cooldown ab)%Q
  \/ distance_exceeds m (get w user) (get w target) (inject_Z (range ab)) ->
  activate m ab user target w = (false, ab, w).
Proof.
  intros H. unfold activate.
  destruct (Py.Qltb 0 (current_cooldown ab)) eqn:E; [reflexivity|].
  destruct H as [H | H].
  - apply Qltb_lt in H. congruence.
  - apply distance_test_false in H. cbv zeta. now rewrite H.
Qed.

Lemma activate_succeeds (m : MathLib) (ab : Ability) (user target : Who) (w : World) :
  (current_cooldown ab <= 0)%Q ->
  ~ distance_exceeds m (get w user) (get w target) (inject_Z (range ab)) ->
  activate m ab user target w
  = (true, set_current_cooldown (cooldown ab) ab, world_after_hit ab target w).
Proof.
  intros Hc Hd. unfold activate.
  rewrite (proj2 (Qltb_ge _ _) Hc). cbv zeta.
  rewrite (proj2 (distance_test_true _ _ _ _) Hd). reflexivity.
Qed.

Lemma use_ability_unknown (m : MathLib) (name : string) (user target : Who) (w : World) :
  abilities (get w user) !! name = None ->
  use_ability m name user target w = (false, w).
Proof. intros H. unfold use_ability. now rewrite H. Qed.

Lemma use_ability_fails (m : MathLib) (name : string) (ab : Ability) (user target : Who) (w : World) :
  abilities (get w user) !! name = Some ab ->
  (0 < current_cooldown ab)%Q
  \/ distance_exceeds m (get w user) (get w target) (inject_Z (range ab)) ->
  use_ability m name user target w = (false, w).
Proof.
  intros Hab H. unfold use_ability. rewrite Hab, activate_fails by assumption.
  f_equal. apply modify_same.
  rewrite insert_id by assumption. apply set_abilities_same.
Qed.

Lemma use_ability_succeeds (m : MathLib) (name : string) (ab : Ability) (user target : Who) (w : World) :
  abilities (get w user) !! name = Some ab ->
  (current_cooldown ab <= 0)%Q ->
  ~ distance_exceeds m (get w user) (get w target) (inject_Z (range ab)) ->
  use_ability m name user target w
  = (true,
     modify user
       (fun a => set_abilities
                   (<[name := set_current_cooldown (cooldown ab) ab]> (abilities a)) a)
       (world_after_hit ab target w)).
Proof.
  intros Hab Hc Hd. unfold use_ability.
  now rewrite Hab, activate_succeeds by assumption.
Qed.

Lemma take_damage_body (amount : Q) (a : Ant) : body (take_damage amount a) = body a.
Proof.
  unfold take_damage. destruct (negb (is_alive a)); [reflexivity|].
  cbv zeta. now destruct (Qle_bool _ 0).
Qed.


Lemma apply_effect_body (ty : string) (d : Q) (a : Ant) :
  body (apply_effect ty d a) = body a.
Proof. unfold apply_effect. now destruct (String.eqb ty "acid"). Qed.

Lemma Who_cases (a b : Who) : a = b \/ a <> b.
Proof. destruct a, b; auto; right; discriminate. Qed.

Lemma get_modify_same (r : Who) (f : Ant -> Ant) (w : World) :
  get (modify r f w) r = f (get w r).
Proof. now destruct r. Qed.

Lemma get_modify_other (r r' : Who) (f : Ant -> Ant) (w : World) :
  r <> r' -> get (modify r f w) r' = get w r'.
Proof. destruct r, r'; intros H; try reflexivity; congruence. Qed.

Lemma get_modify_frame (r r' : Who) (f : Ant -> Ant) (w : World) {A} (proj : Ant -> A) :
  (forall a, proj (f a) = proj a) -> proj (get (modify r f w) r') = proj (get w r').
Proof. intros H. destruct r, r'; simpl; auto. Qed.

Lemma world_after_hit_body (ab : Ability) (target r : Who) (w : World) :
  body (get (world_after_hit ab target w) r) = body (get w r).
Proof.
  unfold world_after_hit. destruct (kind ab).
  - apply (get_modify_frame target r _ w body). intros a. apply take_damage_body.
  - rewrite (get_modify_frame target r _ _ body) by (intros a; apply apply_effect_body).
    apply (get_modify_frame target r _ w body). intros a. apply take_damage_body.
Qed.

Lemma world_after_hit_other (ab : Ability) (target r : Who) (w : World) :
  target <> r -> get (world_after_hit ab target w) r = get w r.
Proof.
  intros H. unfold world_after_hit.
  destruct (kind ab); rewrite ?get_modify_other by assumption; reflexivity.
Qed.

Lemma world_after_hit_vital (ab : Ability) (target : Who) (w : World) :
  vital (get (world_after_hit ab target w) target)
  = vital (take_damage (inject_Z (damage ab)) (get w target)).
Proof.
  unfold world_after_hit. destruct (kind ab); rewrite !get_modify_same; [reflexivity|].
  unfold vital. now destruct (apply_effect_health "acid" 3.0
                                (take_damage (inject_Z (damage ab)) (get w target)))
    as [-> ->].
Qed.



(** A spray on a live target ten units away: 15 damage and one more
    effect in its list. *)
Example example_spray :
  (fun r => (r.1, Qred (health (player r.2)), active_effects (player r.2)))
    (use_ability example_math "acid_spray" Enemy Player example_world)
  = (true, 85%Q, [AcidEffect 3.0 3.0 5]).
Proof. vm_compute. reflexivity. Qed.

(** C2 as stated fails: a knocked-out player ten units from the enemy
    bites it all the same.  The call returns [True], the enemy loses 20
    health and the bite goes on cooldown. *)
Lemma dead_user_bites :
  is_alive (player example_world_dead_player) = false
  /\ (use_ability example_math "bite" Player Enemy example_world_dead_player).1 = true
  /\ (health (enemy example_world_dead_player) == 100)%Q
  /\ (health (enemy (use_ability example_math "bite" Player Enemy example_world_dead_player).2)
      == 80)%Q
  /\ (current_cooldown <$>
        abilities (player (use_ability example_math "bite" Player Enemy
                             example_world_dead_player).2) !! "bite")
     = Some 2.0%Q.
Proof. repeat split; vm_compute; reflexivity. Qed.

(** C2, as the code has it.  [use_ability] never looks at the alive flag
    of its user.  For a user that is not alive it returns [False] and
    changes nothing when the name is unknown, the ability is on cooldown
    or the target is out of range; otherwise it activates the ability as
    it would for a live user. *)
Theorem use_ability_dead_user
    (m : MathLib) (name : string) (user target : Who) (w : World) :
  is_alive (get w user) = false ->
  (abilities (get w user) !! name = None ->
   use_ability m name user target w = (false, w))
  /\ (forall ab,
         abilities (get w user) !! name = Some ab ->
         (0 < current_cooldown ab)%Q
         \/ distance_exceeds m (get w user) (get w target) (inject_Z (range ab)) ->
         use_ability m name user target w = (false, w))
  /\ (forall ab,
         abilities (get w user) !! name = Some ab ->
         (current_cooldown ab <= 0)%Q ->
         ~ distance_exceeds m (get w user) (get w target) (inject_Z (range ab)) ->
         use_ability m name user target w
         = (true,
            modify user
              (fun a => set_abilities
                          (<[name := set_current_cooldown (cooldown ab) ab]>
                             (abilities a)) a)
              (world_after_hit ab target w))).
Proof.
  intros _. split; [|split].
  - apply use_ability_unknown.
  - intros ab. apply use_ability_fails.
  - intros ab. apply use_ability_succeeds.
Qed.

Lemma use_ability_dead_user_witness :
  use_ability example_math "sting" Player Enemy example_world_dead_player
  = (false, example_world_dead_player).
Proof.
  apply (use_ability_dead_user example_math "sting" Player Enemy example_world_dead_player).
  - vm_compute. reflexivity.
  - vm_compute. reflexivity.
Defined.

(** ** Status effects *)

Lemma StatusEffect_update_eq (dt : Q) (e : StatusEffect) (a : Ant) :
  StatusEffect_update dt e a
  = (Py.Qltb 0 (remaining_time (effect_after dt e)), effect_after dt e,
     holder_after dt e a).
Proof. now destruct e. Qed.

(** The comprehension keeps, in order, the effects with time left, after
    every effect of the old list has acted on the holder. *)
Lemma update_effects_eq (dt : Q) (effects : list StatusEffect) :
  forall a : Ant,
    update_effects dt effects a
    = (List.filter (fun e => Py.Qltb 0 (remaining_time e)) (effect_after dt <$> effects),
       foldl (fun acc e => holder_after dt e acc) a effects).
Proof.
  induction effects as [|e effects IH]; intros a; [reflexivity|].
  cbn [update_effects]. rewrite StatusEffect_update_eq, IH.
  cbn [fmap list_fmap List.filter foldl].
  now destruct (Py.Qltb 0 (remaining_time (effect_after dt e))).
Qed.

Lemma take_damage_vital (amount : Q) (a b : Ant) :
  vital a = vital b -> vital (take_damage amount a) = vital (take_damage amount b).
Proof.
  unfold vital. intros H. injection H as Hh Ha.
  unfold take_damage. rewrite Ha, Hh. simpl.
  destruct (negb (is_alive b)); simpl; [congruence|].
  destruct (Qle_bool (Py.max 0 (health b - amount)) 0); simpl; congruence.
Qed.

Lemma holder_after_vital (dt : Q) (e : StatusEffect) (a b : Ant) :
  vital a = vital b -> vital (holder_after dt e a) = vital (holder_after dt e b).
Proof. destruct e; simpl; [auto | apply take_damage_vital]. Qed.

Lemma foldl_holder_after_vital (dt : Q) (effects : list StatusEffect) :
  forall a b : Ant,
    vital a = vital b ->
    vital (foldl (fun acc e => holder_after dt e acc) a effects)
    = vital (foldl (fun acc e => holder_after dt e acc) b effects).
Proof.
  induction effects as [|e effects IH]; intros a b H; simpl; [exact H|].
  apply IH. now apply holder_after_vital.
Qed.

(** What [Ant.update] does to the effects and the health of a live
    combatant, on a terrain of a match. *)
Lemma Ant_update_effects (dt : Q) (t : Terrain) (a : Ant) :
  config_ok (config t) -> terrain_ok t -> is_alive a = true ->
  exists a',
    Ant_update dt t a = Some a'
    /\ active_effects a'
       = List.filter (fun e => Py.Qltb 0 (remaining_time e))
                     (effect_after dt <$> active_effects a)
    /\ vital a' = vital (foldl (fun acc e => holder_after dt e acc) a (active_effects a)).
Proof.
  intros Hc Hok Halive. unfold Ant_update. rewrite Halive. cbn [negb].
  cbv zeta.
  match goal with
  | |- context [get_height_at t ?v] =>
      destruct (get_height_at_total t v Hc Hok) as [gh Hgh]; rewrite Hgh
  end.
  cbn [mbind option_bind].
  destruct (Py.Qltb (inject_Z (SCREEN_HEIGHT (config t) - gh)) _);
    cbn [active_effects set_abilities set_velocity set_y set_x];
    rewrite update_effects_eq;
    cbn [walking animation_timer animation_frame set_active_effects];
    repeat match goal with
      | |- context [if ?c then _ else _] => destruct c
      end;
    (eexists; split; [reflexivity|]; split; [reflexivity|];
     apply foldl_holder_after_vital; reflexivity).
Qed.

(** C6. One [update(dt, holder)] of an effect with damage rate [r]
    passes exactly [r * dt] to the holder's [take_damage], then takes
    [dt] off the remaining time, and answers "still active" iff what
    remains is above 0.  In [Ant.update] an effect whose remaining time
    drops to 0 or less is dropped from the list in that same update, and
    its damage has been applied before: the last, partial tick still
    hurts. *)
Theorem effect_tick_contract
    (dt : Q) (d r : Q) (rate : Z) (a : Ant) (t : Terrain) :
  config_ok (config t) ->
  terrain_ok t ->
  is_alive a = true ->
  (exists e',
      StatusEffect_update dt (AcidEffect d r rate) a
      = (Py.Qltb 0 (remaining_time e'), e', take_damage (inject_Z rate * dt) a)
      /\ remaining_time e' = (r - dt)%Q
      /\ (Py.Qltb 0 (remaining_time e') = true <-> (0 < r - dt)%Q)
      /\ health (take_damage (inject_Z rate * dt) a)
         = Py.max 0 (health a - inject_Z rate * dt))
  /\ (exists a',
         Ant_update dt t a = Some a'
         /\ active_effects a'
            = List.filter (fun e => Py.Qltb 0 (remaining_time e))
                          (effect_after dt <$> active_effects a)
         /\ vital a'
            = vital (foldl (fun acc e => holder_after dt e acc) a (active_effects a)))
  /\ ((r - dt <= 0)%Q ->
      update_effects dt [AcidEffect d r rate] a
      = ([], take_damage (inject_Z rate * dt) a)).
Proof.
  intros Hc Hok Halive. split; [|split].
  - exists (AcidEffect d (r - dt) rate). simpl.
    split; [reflexivity|]. split; [reflexivity|].
    split; [apply Qltb_lt|]. apply (take_damage_alive _ _ Halive).
  - now apply Ant_update_effects.
  - intros Hexp. rewrite update_effects_eq. simpl.
    now rewrite (proj2 (Qltb_ge _ _) Hexp).
Qed.

Example example_acid_tick :
  (fun a => (active_effects <$> a, Qred <$> (health <$> a)))
    (Ant_update 0.5 example_terrain example_acid_player)
  = (Some [AcidEffect 3.0 (2.0 - 0.5) 5], Some 95%Q).
Proof. vm_compute. reflexivity. Qed.

Lemma effect_tick_contract_witness :
  update_effects 0.5 [AcidEffect 3.0 0.3 5] example_acid_player
  = ([], take_damage (inject_Z 5 * 0.5) example_acid_player).
Proof.
  apply (effect_tick_contract 0.5 3.0 0.3 5 example_acid_player example_terrain).
  - unfold config_ok. simpl. lia.
  - split; [refine (bool_decide_unpack _ _); vm_compute; exact I
           | vm_compute; reflexivity].
  - reflexivity.
  - vm_compute. discriminate.
Defined.

(** ** The opponent controller *)


(** The attack decision draws at most two rolls. *)
Lemma attack_decision_rng (m : MathLib) (ai : AIController) (player_ant : Who) (d : Q)
    (w : World) (g : RNG) :
  exists k : nat,
    (k <= 2)%nat
    /\ samples (attack_decision m ai player_ant d w g).2 = samples g
    /\ cursor (attack_decision m ai player_ant d w g).2 = (cursor g + k)%nat.
Proof.
  unfold attack_decision, random.
  destruct (Py.Qltb d 120); [|exists 0%nat; simpl; auto with lia].
  destruct (Py.Qltb (samples g (cursor g)) (difficulty ai));
    [|exists 1%nat; simpl; auto with lia].
  destruct (Py.Qltb d 40); [|exists 1%nat; simpl; auto with lia].
  destruct (Py.Qltb (samples (advance 1 g) (cursor (advance 1 g))) 0.7);
    exists 2%nat; simpl; auto with lia.
Qed.



(** Scenario D: the idle opponent 40 units from the player attacks. *)
Example scenario_d :
  let w := modify Enemy (set_x 140) example_world in
  let ai := AIController_init Enemy default_config in
  (fun r => (ai_state r.1.1, state_timer r.1.1))
    (AIController_update example_math (1 # 60) Player example_terrain ai w example_rng)
  = (attack, 2.0%Q).
Proof. vm_compute. reflexivity. Qed.


(** ** The projectile block *)

(** C1 as stated fails: the example projectile comes down on the ground
    right where the enemy stands.  The ground check fires and digs a
    crater (the sample under the impact goes from 190 to 180), and yet
    the enemy takes the 30 damage in that same tick. *)
Lemma projectile_hits_ground_and_enemy :
  active example_projectile = true
  /\ check_collision example_terrain
       (Py.int (p_x (Projectile_update default_config example_projectile)))
       (Py.int (p_y (Projectile_update default_config example_projectile)))
     = Some true
  /\ ((fun '(p', t', w', _) =>
         (active p', height_map t' !! 55%nat, Qred (health (enemy w'))))
        <$> projectile_tick example_math default_config example_projectile example_terrain
              example_world example_rng)
     = Some (false, Some 180, 70%Q)
  /\ height_map example_terrain !! 55%nat = Some 190
  /\ Qred (health (enemy example_world)) = 100%Q.
Proof. repeat split; vm_compute; reflexivity. Qed.

(** C1, as the code has it.  On a tick of an active projectile the two
    checks are made one after the other and independently.  If the moved
    projectile collides with the terrain, a crater of radius 20 is dug
    there; and, whether or not that happened, if the distance to the
    enemy is below 15 the enemy takes the projectile's damage.  The
    projectile stays active only if neither fired; none, one or both can
    fire in a tick.  The distance is the value of [math.hypot]; where
    that value is the exact root, the test is the one on the squares. *)
Theorem projectile_impact
    (m : MathLib) (cfg : GameConfig) (p : Projectile) (t : Terrain) (w : World) (g : RNG) :
  config_ok (config t) ->
  terrain_ok t ->
  active p = true ->
  let p1 := Projectile_update cfg p in
  let px := Py.int (p_x p1) in
  let py := Py.int (p_y p1) in
  let dx := (p_x p1 - x (enemy w))%Q in
  let dy := (p_y p1 - y (enemy w))%Q in
  let near := Py.Qltb (hypot m dx dy) 15 in
  exists (hit : bool) (p' : Projectile) (g' : RNG),
    check_collision t px py = Some hit
    /\ projectile_tick m cfg p t w g
       = Some (p',
               if hit then crater t px py 20 else t,
               if near
               then modify Enemy (take_damage (inject_Z (p_damage p))) w
               else w,
               g')
    /\ active p' = negb hit && negb near
    /\ (near = true <-> (hypot m dx dy < 15)%Q)
    /\ ((0 <= hypot m dx dy)%Q ->
        (hypot m dx dy * hypot m dx dy == dx * dx + dy * dy)%Q ->
        (near = true <-> (dx * dx + dy * dy < 15 * 15)%Q)).
Proof.
  intros Hc Hok Hact. cbv zeta.
  destruct (check_collision_total t
              (Py.int (p_x (Projectile_update cfg p)))
              (Py.int (p_y (Projectile_update cfg p))) Hc Hok)
    as (hit & Hhit).
  exists hit. unfold projectile_tick, ground_check, enemy_check.
  rewrite Hhit. cbn [mbind option_bind].
  destruct hit; cbn [apply_destruction mbind option_bind];
    cbn [set_active p_x p_y p_damage active];
    destruct (Py.Qltb (hypot m _ _) 15) eqn:En;
    eexists _, _; (split; [reflexivity|]); (split; [reflexivity|]);
    (split; [first [reflexivity | exact Hact]|]).
  all: first
         [ apply Qltb_lt in En;
           split;
           [ split; [intros _; exact En | reflexivity]
           | intros Hpos Hsq; split; [intros _; nra | reflexivity] ]
         | apply Qltb_ge in En;
           split;
           [ split; [discriminate | intros H'; exfalso; lra]
           | intros Hpos Hsq; split; [discriminate | intros H'; exfalso; nra] ] ].
Qed.

Lemma projectile_impact_witness :
  exists (hit : bool) (p' : Projectile),
    check_collision example_terrain 110 410 = Some hit /\ active p' = false.
Proof.
  destruct (projectile_impact example_math default_config example_projectile example_terrain
              example_world example_rng) as (hit & p' & g' & H1 & _ & H2 & _).
  - unfold config_ok. simpl. lia.
  - split; [refine (bool_decide_unpack _ _); vm_compute; exact I
           | vm_compute; reflexivity].
  - reflexivity.
  - exists hit, p'. split; [exact H1|]. rewrite H2.
    vm_compute in H1. injection H1 as <-. reflexivity.
Defined.

(** The whole frame update runs on the example match and ends it: the
    opponent has 70 health left, the projectile is spent. *)
Example example_frame :
  (fun '(gm, _) =>
     (g_state gm, Qred (health (enemy (world gm))),
      active <$> projectile gm, ai_state (ai_controller gm)))
    <$> Game_update example_math (1 # 60) example_game example_rng
  = Some (PLAYING, 70%Q, Some false, idle).
Proof. vm_compute. reflexivity. Qed.

(** * Further properties of the code *)

(** ** Terrain *)

(** Every height that [get_height_at] returns on a terrain of a match,
    on or off the screen, lies between the minimum and the maximum
    height, and the lookup never raises. *)
Theorem get_height_at_bounds (t : Terrain) (px : Z) :
  config_ok (config t) -> terrain_ok t ->
  exists h,
    get_height_at t px = Some h
    /\ MIN_GROUND_HEIGHT (config t) <= h <= MAX_GROUND_HEIGHT (config t).
Proof.
  intros Hc Hok.
  destruct (Z_lt_le_dec px 0) as [Hx | Hx].
  { exists (MIN_GROUND_HEIGHT (config t)).
    split; [apply get_height_at_outside; lia | destruct Hc as (_ & _ & ?); lia]. }
  destruct (Z_lt_le_dec px (SCREEN_WIDTH (config t))) as [Hx' | Hx'].
  - destruct (get_height_at_inside t px Hc Hok ltac:(lia)) as (h & Hh & Hl).
    exists h. split; [exact Hh|].
    destruct Hok as [Hall _].
    eapply (proj1 (Forall_lookup _ _) Hall); eassumption.
  - exists (MIN_GROUND_HEIGHT (config t)).
    split; [apply get_height_at_outside; lia | destruct Hc as (_ & _ & ?); lia].
Qed.

Lemma get_height_at_bounds_witness :
  exists h, get_height_at example_terrain 100 = Some h /\ 100 <= h <= 200.
Proof.
  apply (get_height_at_bounds example_terrain 100).
  - unfold config_ok. simpl. lia.
  - split; [refine (bool_decide_unpack _ _); vm_compute; exact I
           | vm_compute; reflexivity].
Defined.

Lemma get_height_at_crater (t : Terrain) (cx cy radius px h : Z) :
  config_ok (config t) -> terrain_ok t ->
  get_height_at t px = Some h ->
  exists h', get_height_at (crater t cx cy radius) px = Some h' /\ h' <= h.
Proof.
  intros Hc Hok Hh.
  destruct (Z_lt_le_dec px 0) as [Hx | Hx].
  { rewrite get_height_at_outside in Hh by lia. injection Hh as <-.
    exists (MIN_GROUND_HEIGHT (config t)).
    split; [apply (get_height_at_outside (crater t cx cy radius)); simpl; lia | lia]. }
  destruct (Z_lt_le_dec px (SCREEN_WIDTH (config t))) as [Hx' | Hx'].
  - destruct (get_height_at_inside t px Hc Hok ltac:(lia)) as (h0 & Hh0 & Hl).
    assert (h0 = h) as -> by congruence.
    assert (Hok' : terrain_ok (crater t cx cy radius))
      by (apply crater_ok; [apply Hc | exact Hok]).
    destruct (get_height_at_inside (crater t cx cy radius) px Hc Hok' ltac:(simpl; lia))
      as (h' & Hh' & Hl').
    exists h'. split; [exact Hh'|].
    rewrite crater_length in Hl'. cbn [config crater] in Hl'.
    rewrite crater_lookup, Hl in Hl' by apply Hc. simpl in Hl'.
    injection Hl' as <-. apply crater_sample_le.
    destruct Hok as [Hall _].
    apply (proj1 (Forall_lookup _ _) Hall _ _ Hl).
  - rewrite get_height_at_outside in Hh by lia. injection Hh as <-.
    exists (MIN_GROUND_HEIGHT (config t)).
    split; [apply (get_height_at_outside (crater t cx cy radius)); simpl; lia | lia].
Qed.

(** A crater only removes ground: a point that collides with the terrain
    after [apply_destruction] collided with it before. *)
Theorem crater_removes_ground (t : Terrain) (cx cy radius px py : Z) (g : RNG) :
  config_ok (config t) -> terrain_ok t ->
  check_collision (apply_destruction t cx cy radius g).1 px py = Some true ->
  check_collision t px py = Some true.
Proof.
  intros Hc Hok Hafter. cbn [apply_destruction fst] in Hafter.
  destruct (get_height_at_total t px Hc Hok) as [h Hh].
  destruct (get_height_at_crater t cx cy radius px h Hc Hok Hh) as (h' & Hh' & Hle).
  rewrite (check_collision_eq _ px py h' Hh') in Hafter.
  rewrite (check_collision_eq _ px py h Hh).
  injection Hafter as Hafter. apply bool_decide_eq_true in Hafter.
  cbn [config crater] in Hafter.
  f_equal. apply bool_decide_eq_true. lia.
Qed.

Lemma crater_removes_ground_witness :
  check_collision example_terrain 100 425 = Some true.
Proof.
  apply (crater_removes_ground example_terrain 100 450 20 100 425 example_rng).
  - unfold config_ok. simpl. lia.
  - split; [refine (bool_decide_unpack _ _); vm_compute; exact I
           | vm_compute; reflexivity].
  - vm_compute. reflexivity.
Defined.

Lemma foldl_crater_step_nop cfg x0 radius (l : list Z) (hm : list Z) :
  radius <= 0 -> foldl (crater_step cfg x0 radius) hm l = hm.
Proof.
  intros Hr. induction l as [|i l IH]; [reflexivity|].
  cbn [foldl]. unfold crater_step at 2.
  destruct (Z.abs (x0 - i * TERRAIN_RESOLUTION cfg) <? radius) eqn:E;
    [apply Z.ltb_lt in E; lia | exact IH].
Qed.

(** A crater of radius zero or less changes nothing. *)
Theorem crater_empty_radius (t : Terrain) (cx cy radius : Z) (g : RNG) :
  radius <= 0 -> (apply_destruction t cx cy radius g).1 = t.
Proof.
  intros Hr. cbn [apply_destruction fst]. unfold crater.
  rewrite foldl_crater_step_nop by assumption. now destruct t.
Qed.

Lemma crater_empty_radius_witness :
  (apply_destruction example_terrain 100 450 0 example_rng).1 = example_terrain.
Proof. apply crater_empty_radius. lia. Defined.

Lemma crater_sample_comm cfg x1 r1 x2 r2 i h :
  crater_sample cfg x1 r1 i (crater_sample cfg x2 r2 i h)
  = crater_sample cfg x2 r2 i (crater_sample cfg x1 r1 i h).
Proof.
  unfold crater_sample.
  set (d1 := Z.abs (x1 - i * TERRAIN_RESOLUTION cfg)).
  set (d2 := Z.abs (x2 - i * TERRAIN_RESOLUTION cfg)).
  destruct (d1 <? r1) eqn:E1, (d2 <? r2) eqn:E2; try reflexivity.
  apply Z.ltb_lt in E1, E2.
  pose proof (height_reduction_nonneg r1 d1 ltac:(lia)).
  pose proof (height_reduction_nonneg r2 d2 ltac:(lia)).
  lia.
Qed.

(** Two craters commute: the height map does not depend on the order in
    which two impacts are applied. *)
Theorem craters_commute (t : Terrain) (x1 y1 r1 x2 y2 r2 : Z) (g1 g2 : RNG) :
  0 < TERRAIN_RESOLUTION (config t) ->
  height_map (apply_destruction (apply_destruction t x1 y1 r1 g1).1 x2 y2 r2 g2).1
  = height_map (apply_destruction (apply_destruction t x2 y2 r2 g1).1 x1 y1 r1 g2).1.
Proof.
  intros HR. cbn [apply_destruction fst]. apply list_eq. intros j.
  rewrite !crater_lookup by exact HR. cbn [config crater].
  destruct (height_map t !! j) as [h|]; [|reflexivity].
  simpl. f_equal. apply crater_sample_comm.
Qed.

Lemma craters_commute_witness :
  height_map (apply_destruction (apply_destruction example_terrain 100 450 20 example_rng).1
                                110 450 30 example_rng).1
  = height_map (apply_destruction (apply_destruction example_terrain 110 450 30 example_rng).1
                                  100 450 20 example_rng).1.
Proof. apply craters_commute. simpl. lia. Defined.

(** A crater lowers no sample by more than half its radius. *)
Theorem crater_depth (t : Terrain) (cx cy radius : Z) (g : RNG) (i : nat) (h : Z) :
  0 < TERRAIN_RESOLUTION (config t) ->
  MIN_GROUND_HEIGHT (config t) <= h ->
  height_map t !! i = Some h ->
  exists h',
    height_map (apply_destruction t cx cy radius g).1 !! i = Some h'
    /\ h - Z.max 0 radius / 2 <= h' <= h.
Proof.
  intros HR Hmin Hh. cbn [apply_destruction fst].
  rewrite crater_lookup, Hh by exact HR. eexists. split; [reflexivity|].
  pose proof (crater_sample_le (config t) cx radius (Z.of_nat i) h Hmin) as Hle.
  split; [|exact Hle]. unfold crater_sample.
  set (d := Z.abs (cx - Z.of_nat i * TERRAIN_RESOLUTION (config t))).
  assert (0 <= Z.max 0 radius / 2) by (apply Z.div_pos; lia).
  destruct (d <? radius) eqn:E; [|lia].
  apply Z.ltb_lt in E. rewrite height_reduction_floor by lia.
  assert ((radius - d) / 2 <= Z.max 0 radius / 2); [|lia].
  apply Z.div_le_mono; lia.
Qed.

Lemma crater_depth_witness :
  exists h',
    height_map (apply_destruction example_terrain 100 450 20 example_rng).1 !! 50%nat
    = Some h'
    /\ 190 - Z.max 0 20 / 2 <= h' <= 190.
Proof.
  apply (crater_depth example_terrain 100 450 20 example_rng 50 190).
  - simpl. lia.
  - simpl. lia.
  - vm_compute. reflexivity.
Defined.

Lemma range_from_lookup (step stop : Z) (fuel : nat) :
  0 < step ->
  forall (x0 : Z) (i : nat),
    stop - x0 <= Z.of_nat fuel ->
    x0 + Z.of_nat i * step < stop ->
    Py.range_from fuel x0 stop step !! i = Some (x0 + Z.of_nat i * step).
Proof.
  intros Hstep. induction fuel as [|fuel IH]; intros x0 i Hfuel Hi.
  - nia.
  - cbn [Py.range_from].
    destruct (x0 <? stop) eqn:E; [|apply Z.ltb_ge in E; nia].
    destruct i as [|i]; [simpl; f_equal; lia|].
    cbn [lookup list_lookup]. rewrite IH by lia. f_equal. lia.
Qed.

(** The sample of index [i] of a generated terrain is the clamped,
    truncated height at world-x [i * resolution]. *)
Theorem generate_heights_lookup (m : MathLib) (cfg : GameConfig) (phase : Q) (i : nat) :
  0 < TERRAIN_RESOLUTION cfg ->
  Z.of_nat i * TERRAIN_RESOLUTION cfg < SCREEN_WIDTH cfg ->
  generate_heights m cfg phase !! i
  = Some (terrain_height m cfg phase (Z.of_nat i * TERRAIN_RESOLUTION cfg)).
Proof.
  intros HR Hi. unfold generate_heights, Py.range.
  rewrite list_lookup_fmap, range_from_lookup by lia. reflexivity.
Qed.

Lemma generate_heights_lookup_witness :
  generate_heights example_math default_config 1 !! 399%nat
  = Some (terrain_height example_math default_config 1 (Z.of_nat 399 * 2)).
Proof.
  apply (generate_heights_lookup example_math default_config 1 399); simpl; lia.
Defined.

(** ** Projectiles *)

Lemma Projectile_update_trail (cfg : GameConfig) (p : Projectile) :
  trail (Projectile_update cfg p)
  = if trail_length p <? Z.of_nat (length (trail p ++ [(p_x p, p_y p)]))
    then tail (trail p ++ [(p_x p, p_y p)])
    else trail p ++ [(p_x p, p_y p)].
Proof. reflexivity. Qed.

Lemma Projectile_update_trail_length (cfg : GameConfig) (p : Projectile) :
  0 <= trail_length p ->
  Z.of_nat (length (trail p)) <= trail_length p ->
  Z.of_nat (length (trail (Projectile_update cfg p)))
  = Z.min (trail_length p) (Z.of_nat (length (trail p)) + 1).
Proof.
  intros HN Hlen. rewrite Projectile_update_trail.
  destruct (trail p) as [|q l]; cbn [app length tail] in *.
  - destruct (trail_length p <? Z.of_nat 1) eqn:E; simpl;
      [apply Z.ltb_lt in E | apply Z.ltb_ge in E]; lia.
  - destruct (trail_length p <? Z.of_nat (S (length (l ++ [(p_x p, p_y p)])))) eqn:E;
      [apply Z.ltb_lt in E | apply Z.ltb_ge in E];
      cbn [length] in *; rewrite length_app in *; cbn [length] in *; lia.
Qed.

Lemma fly_S (cfg : GameConfig) (n : nat) (p : Projectile) :
  fly cfg (S n) p = Projectile_update cfg (fly cfg n p).
Proof. reflexivity. Qed.

Lemma fly_trail_length_fixed (cfg : GameConfig) (n : nat) (p : Projectile) :
  trail_length (fly cfg n p) = trail_length p.
Proof. induction n as [|n IH]; [reflexivity | rewrite fly_S; exact IH]. Qed.

(** The trail is a bounded queue: after [n] updates it holds
    [min(trail_length, old length + n)] positions, the position the
    projectile had before the last update comes last, and a full trail
    has dropped its oldest entry. *)
Theorem trail_bounded (cfg : GameConfig) (n : nat) (p : Projectile) :
  0 <= trail_length p ->
  Z.of_nat (length (trail p)) <= trail_length p ->
  Z.of_nat (length (trail (fly cfg n p)))
  = Z.min (trail_length p) (Z.of_nat (length (trail p)) + Z.of_nat n)
  /\ (1 <= trail_length p ->
      last (trail (Projectile_update cfg p)) = Some (p_x p, p_y p))
  /\ (1 <= trail_length p -> Z.of_nat (length (trail p)) = trail_length p ->
      trail (Projectile_update cfg p) = tail (trail p) ++ [(p_x p, p_y p)]).
Proof.
  intros HN Hlen. split; [|split].
  - induction n as [|n IH]; [simpl; lia|].
    rewrite fly_S, Projectile_update_trail_length;
      rewrite ?fly_trail_length_fixed; lia.
  - intros H1. rewrite Projectile_update_trail.
    destruct (trail_length p <? _) eqn:E; [|apply last_snoc].
    destruct (trail p) as [|q l] eqn:El.
    + apply Z.ltb_lt in E. simpl in E. lia.
    + simpl. apply last_snoc.
  - intros H1 Hfull. rewrite Projectile_update_trail.
    rewrite length_app. cbn [length].
    destruct (trail_length p <? _) eqn:E; [|apply Z.ltb_ge in E; lia].
    destruct (trail p) as [|q l]; [simpl in Hfull; lia | reflexivity].
Qed.

Lemma trail_bounded_witness :
  Z.of_nat (length (trail (fly default_config 25 example_projectile)))
  = Z.min 10 (0 + Z.of_nat 25).
Proof.
  apply (trail_bounded default_config 25 example_projectile); simpl; lia.
Defined.

(** The flight of a projectile in closed form: after [n] updates the
    horizontal speed is what it was, the vertical speed has gained
    [n * GRAVITY], and the position is
    [(x + n * vx, y + n * vy + GRAVITY * n * (n + 1) / 2)].  The step is
    not scaled by any elapsed time. *)
Theorem projectile_trajectory (cfg : GameConfig) (n : nat) (p : Projectile) :
  let k := inject_Z (Z.of_nat n) in
  (p_velocity (fly cfg n p)).1 = (p_velocity p).1
  /\ ((p_velocity (fly cfg n p)).2 == (p_velocity p).2 + k * GRAVITY cfg)%Q
  /\ (p_x (fly cfg n p) == p_x p + k * (p_velocity p).1)%Q
  /\ (p_y (fly cfg n p)
      == p_y p + k * (p_velocity p).2 + GRAVITY cfg * k * (k + 1) / 2)%Q.
Proof.
  induction n as [|n (IH1 & IH2 & IH3 & IH4)].
  - simpl. repeat split; try reflexivity; cbv zeta; field.
  - cbv zeta in *. rewrite fly_S.
    assert (Hk : (inject_Z (Z.of_nat (S n)) == inject_Z (Z.of_nat n) + 1)%Q).
    { rewrite Nat2Z.inj_succ. unfold Z.succ. now rewrite inject_Z_plus. }
    cbn [Projectile_update p_velocity p_x p_y fst snd].
    rewrite IH1, IH2, IH3, IH4, Hk.
    repeat split; try reflexivity; field.
Qed.

(** ** Combatants *)

Lemma holder_after_body (dt : Q) (e : StatusEffect) (a : Ant) :
  body (holder_after dt e a) = body a.
Proof. destruct e; [reflexivity | apply take_damage_body]. Qed.

Lemma foldl_holder_after_body (dt : Q) (effects : list StatusEffect) (a : Ant) :
  body (foldl (fun acc e => holder_after dt e acc) a effects) = body a.
Proof.
  revert a. induction effects as [|e effects IH]; intros a; [reflexivity|].
  cbn [foldl]. now rewrite IH, holder_after_body.
Qed.

Lemma take_damage_le (amount : Q) (a : Ant) :
  (0 <= amount)%Q -> (0 <= health a)%Q ->
  (0 <= health (take_damage amount a))%Q
  /\ (health (take_damage amount a) <= health a)%Q
  /\ (is_alive a = false -> is_alive (take_damage amount a) = false).
Proof.
  intros Ham Hh. destruct (is_alive a) eqn:E.
  - destruct (take_damage_alive amount a E) as [-> _].
    split; [apply max_zero_nonneg|]. split; [|discriminate].
    apply max_upper; lra.
  - rewrite take_damage_dead by assumption. repeat split; auto; lra.
Qed.

Lemma holder_after_le (dt : Q) (e : StatusEffect) (a : Ant) :
  (0 <= dt)%Q -> (0 <= damage_rate e)%Q -> (0 <= health a)%Q ->
  (0 <= health (holder_after dt e a))%Q
  /\ (health (holder_after dt e a) <= health a)%Q
  /\ (is_alive a = false -> is_alive (holder_after dt e a) = false).
Proof.
  intros Hdt Hr Hh. destruct e as [d r | d r rate]; simpl in *.
  - repeat split; auto; lra.
  - apply take_damage_le; [nra | assumption].
Qed.

Lemma foldl_holder_after_le (dt : Q) (effects : list StatusEffect) :
  (0 <= dt)%Q -> rates_ok effects ->
  forall a : Ant,
    (0 <= health a)%Q ->
    (0 <= health (foldl (fun acc e => holder_after dt e acc) a effects))%Q
    /\ (health (foldl (fun acc e => holder_after dt e acc) a effects) <= health a)%Q
    /\ (is_alive a = false ->
        is_alive (foldl (fun acc e => holder_after dt e acc) a effects) = false).
Proof.
  intros Hdt Hrates. induction Hrates as [|e effects He _ IH]; intros a Hh.
  - simpl. repeat split; auto; lra.
  - cbn [foldl].
    destruct (holder_after_le dt e a Hdt He Hh) as (H1 & H2 & H3).
    destruct (IH (holder_after dt e a) H1) as (H4 & H5 & H6).
    repeat split; [assumption | lra | auto].
Qed.

(** The whole of [Ant.update] on a live combatant whose terrain lookup
    answers [gh]. *)
Lemma Ant_update_alive (dt : Q) (t : Terrain) (a : Ant) (gh : Z) :
  is_alive a = true ->
  get_height_at t (Py.int (x a + (velocity a).1)) = Some gh ->
  exists a',
    Ant_update dt t a = Some a'
    /\ x a' = (x a + (velocity a).1)%Q
    /\ (y a', velocity a')
       = (if Py.Qltb (inject_Z (SCREEN_HEIGHT (config t) - gh)) (y a + (velocity a).2)
          then (inject_Z (SCREEN_HEIGHT (config t) - gh), ((velocity a).1, 0%Q))
          else ((y a + (velocity a).2)%Q,
                ((velocity a).1, ((velocity a).2 + GRAVITY (config t))%Q)))
    /\ abilities a' = Ability_update dt <$> abilities a
    /\ active_effects a'
       = List.filter (fun e => Py.Qltb 0 (remaining_time e))
                     (effect_after dt <$> active_effects a)
    /\ vital a' = vital (foldl (fun acc e => holder_after dt e acc) a (active_effects a)).
Proof.
  intros Halive Hgh. unfold Ant_update. rewrite Halive. cbn [negb].
  cbv zeta. cbn [x set_x set_y]. rewrite Hgh. cbn [mbind option_bind].
  destruct (Py.Qltb (inject_Z (SCREEN_HEIGHT (config t) - gh)) _);
    cbn [active_effects set_abilities set_velocity set_y set_x];
    rewrite update_effects_eq;
    match goal with
    | |- context [foldl ?f ?b ?l] =>
        pose proof (foldl_holder_after_body dt l b) as Hb;
        pose proof (foldl_holder_after_vital dt l b a eq_refl) as Hv;
        destruct (foldl f b l) as [? ? ? ? ? ? ? ? ? ? ? ? ? ?]
    end;
    unfold body in Hb; cbn in Hb; injection Hb as -> -> -> -> -> -> -> -> -> -> ->;
    cbn [walking animation_timer animation_frame set_active_effects];
    repeat match goal with
      | |- context [if ?c then _ else _] => destruct c
      end;
    (eexists; split; [reflexivity|]; repeat split; try reflexivity; exact Hv).
Qed.

(** [Ant.update] of a live combatant on a terrain of a match, with a
    position and a speed far from the largest float, so that the new
    column is a finite number: the terrain lookup answers (no
    [IndexError]), the combatant is moved by its velocity, and it is
    never left below the ground line at its new column: a combatant that
    would sink is put on the line with its fall stopped, any other gains
    [GRAVITY] of downward speed. *)
Theorem Ant_update_ground (dt : Q) (t : Terrain) (a : Ant) :
  config_ok (config t) -> terrain_ok t -> is_alive a = true ->
  ant_float_safe a ->
  exists (a' : Ant) (gh : Z),
    Ant_update dt t a = Some a'
    /\ get_height_at t (Py.int (x a')) = Some gh
    /\ x a' = (x a + (velocity a).1)%Q
    /\ (y a' <= inject_Z (SCREEN_HEIGHT (config t) - gh))%Q
    /\ ((inject_Z (SCREEN_HEIGHT (config t) - gh) < y a + (velocity a).2)%Q ->
        y a' = inject_Z (SCREEN_HEIGHT (config t) - gh) /\ (velocity a').2 = 0%Q)
    /\ ((y a + (velocity a).2 <= inject_Z (SCREEN_HEIGHT (config t) - gh))%Q ->
        y a' = (y a + (velocity a).2)%Q
        /\ (velocity a').2 = ((velocity a).2 + GRAVITY (config t))%Q).
Proof.
  intros Hc Hok Halive _.
  destruct (get_height_at_total t (Py.int (x a + (velocity a).1)) Hc Hok) as [gh Hgh].
  destruct (Ant_update_alive dt t a gh Halive Hgh) as (a' & Hup & Hx & Hyv & _).
  exists a', gh. split; [exact Hup|]. rewrite Hx. split; [exact Hgh|].
  split; [reflexivity|].
  destruct (Py.Qltb (inject_Z (SCREEN_HEIGHT (config t) - gh)) (y a + (velocity a).2)) eqn:E;
    injection Hyv as Hy Hv; rewrite Hy, Hv; simpl.
  - apply Qltb_lt in E. split; [apply Qle_refl|]. split; [auto|]. intros H. lra.
  - apply Qltb_ge in E. split; [exact E|]. split; [|auto]. intros H. lra.
Qed.

Lemma Ant_update_ground_witness :
  exists (a' : Ant) (gh : Z),
    Ant_update (1 # 60) example_terrain (set_y 500 (player example_world)) = Some a'
    /\ get_height_at example_terrain (Py.int (x a')) = Some gh
    /\ (y a' <= inject_Z (600 - gh))%Q.
Proof.
  destruct (Ant_update_ground (1 # 60) example_terrain (set_y 500 (player example_world)))
    as (a' & gh & H1 & H2 & _ & H3 & _).
  - unfold config_ok. simpl. lia.
  - split; [refine (bool_decide_unpack _ _); vm_compute; exact I
           | vm_compute; reflexivity].
  - reflexivity.
  - split; vm_compute; discriminate.
  - exists a', gh. auto.
Defined.

(** Nothing in [Ant.update] heals: with [dt >= 0] and effects of
    non-negative rate, the health after the update is between 0 and the
    health before, a dead combatant stays dead, and every effect left in
    the list still has time to run. *)
Theorem Ant_update_health (dt : Q) (t : Terrain) (a a' : Ant) :
  (0 <= dt)%Q -> rates_ok (active_effects a) -> (0 <= health a)%Q ->
  Ant_update dt t a = Some a' ->
  (0 <= health a')%Q /\ (health a' <= health a)%Q
  /\ (is_alive a = false -> a' = a)
  /\ rates_ok (active_effects a')
  /\ (is_alive a = true ->
      Forall (fun e => 0 < remaining_time e)%Q (active_effects a')).
Proof.
  intros Hdt Hrates Hh Hup. destruct (is_alive a) eqn:Halive.
  - unfold Ant_update in Hup. rewrite Halive in Hup. cbn [negb] in Hup. cbv zeta in Hup.
    cbn [x set_x set_y] in Hup.
    destruct (get_height_at t (Py.int (x a + (velocity a).1))) as [gh|] eqn:Hgh;
      [|discriminate].
    destruct (Ant_update_alive dt t a gh Halive Hgh) as (a2 & Hup2 & _ & _ & _ & He & Hv).
    unfold Ant_update in Hup2. rewrite Halive in Hup2. cbn [negb] in Hup2.
    cbv zeta in Hup2. cbn [x set_x set_y] in Hup2. rewrite Hgh in Hup2.
    rewrite Hup2 in Hup. injection Hup as ->.
    destruct (foldl_holder_after_le dt (active_effects a) Hdt Hrates a Hh) as (H1 & H2 & _).
    unfold vital in Hv. injection Hv as Hv1 Hv2. rewrite Hv1.
    split; [exact H1|]. split; [exact H2|]. split; [discriminate|].
    rewrite He. split.
    + apply Forall_forall. intros e Hin.
      apply list_elem_of_In, filter_In in Hin. destruct Hin as [Hin _].
      apply list_elem_of_In, list_elem_of_fmap in Hin. destruct Hin as (e0 & -> & Hin0).
      pose proof (proj1 (Forall_forall _ _) Hrates e0 Hin0) as Hr.
      now destruct e0.
    + intros _. apply Forall_forall. intros e Hin.
      apply list_elem_of_In, filter_In in Hin. destruct Hin as [_ Hpos].
      now apply Qltb_lt.
  - unfold Ant_update in Hup. rewrite Halive in Hup. injection Hup as <-.
    repeat split; auto; try lra; discriminate.
Qed.

Lemma Ant_update_health_witness :
  exists a',
    Ant_update 0.5 example_terrain example_acid_player = Some a'
    /\ (health a' <= health example_acid_player)%Q.
Proof.
  destruct (Ant_update 0.5 example_terrain example_acid_player) as [a'|] eqn:E;
    [|vm_compute in E; discriminate].
  exists a'. split; [reflexivity|].
  apply (Ant_update_health 0.5 example_terrain example_acid_player a'); try exact E.
  - vm_compute. discriminate.
  - repeat constructor; vm_compute; discriminate.
  - vm_compute. discriminate.
Defined.

(** ** Abilities in the store *)

(** The two outcomes of [use_ability]. *)
Lemma use_ability_cases (m : MathLib) (name : string) (user target : Who) (w : World) :
  use_ability m name user target w = (false, w)
  \/ exists ab,
      abilities (get w user) !! name = Some ab
      /\ (current_cooldown ab <= 0)%Q
      /\ ~ distance_exceeds m (get w user) (get w target) (inject_Z (range ab))
      /\ use_ability m name user target w
         = (true,
            modify user
              (fun a => set_abilities
                          (<[name := set_current_cooldown (cooldown ab) ab]>
                             (abilities a)) a)
              (world_after_hit ab target w)).
Proof.
  destruct (abilities (get w user) !! name) as [ab|] eqn:Hab;
    [|left; now apply use_ability_unknown].
  destruct (Qlt_le_dec 0 (current_cooldown ab)) as [Hc | Hc];
    [left; apply (use_ability_fails m name ab); auto|].
  destruct (Qle_bool (hypot m (x (get w user) - x (get w target))
                              (y (get w user) - y (get w target)))
                     (inject_Z (range ab))) eqn:Hd.
  - right. exists ab. apply distance_test_true in Hd.
    repeat split; try assumption. now apply use_ability_succeeds.
  - left. apply distance_test_false in Hd. apply (use_ability_fails m name ab); auto.
Qed.

Lemma set_ability_vital (name : string) (ab : Ability) (user r : Who) (w : World) :
  vital (get (modify user
                (fun a => set_abilities (<[name := ab]> (abilities a)) a) w) r)
  = vital (get w r).
Proof. now apply (get_modify_frame user r _ w vital). Qed.

(** Ability gating across calls: right after a successful [use_ability]
    of an ability with a positive cooldown, the same call fails and
    changes nothing. *)
Theorem use_ability_twice (m : MathLib) (name : string) (ab : Ability) (user target : Who) (w : World) :
  abilities (get w user) !! name = Some ab ->
  (0 < cooldown ab)%Q ->
  (use_ability m name user target w).1 = true ->
  use_ability m name user target (use_ability m name user target w).2
  = (false, (use_ability m name user target w).2).
Proof.
  intros Hab Hcd Hok.
  destruct (use_ability_cases m name user target w) as [Hf | (ab' & Hab' & _ & _ & Hs)].
  - rewrite Hf in Hok. discriminate.
  - assert (ab' = ab) as -> by congruence. rewrite Hs. cbn [snd].
    apply (use_ability_fails m name (set_current_cooldown (cooldown ab) ab)).
    + rewrite get_modify_same. cbn [abilities set_abilities]. apply lookup_insert_eq.
    + left. exact Hcd.
Qed.

Lemma use_ability_twice_witness :
  use_ability example_math "bite" Player Enemy (use_ability example_math "bite" Player Enemy example_world).2
  = (false, (use_ability example_math "bite" Player Enemy example_world).2).
Proof.
  apply (use_ability_twice example_math "bite" BiteAbility_init Player Enemy example_world).
  - vm_compute. reflexivity.
  - reflexivity.
  - vm_compute. reflexivity.
Defined.

Lemma use_ability_keeps (m : MathLib) (name : string) (user target : Who) (w : World)
    (r : Who) (other : string) :
  let w' := (use_ability m name user target w).2 in
  x (get w' r) = x (get w r) /\ y (get w' r) = y (get w r)
  /\ velocity (get w' r) = velocity (get w r)
  /\ (other <> name ->
      abilities (get w' user) !! other = abilities (get w user) !! other)
  /\ (user <> target ->
      vital (get w' user) = vital (get w user)
      /\ active_effects (get w' user) = active_effects (get w user)
      /\ abilities (get w' target) = abilities (get w target)).
Proof.
  cbv zeta.
  destruct (use_ability_cases m name user target w) as [-> | (ab & Hab & _ & _ & ->)];
    cbn [snd]; [repeat split; reflexivity|].
  set (f := fun a : Ant =>
              set_abilities (<[name := set_current_cooldown (cooldown ab) ab]>
                               (abilities a)) a).
  pose proof (world_after_hit_body ab target r w) as Hb.
  unfold body in Hb.
  rewrite (get_modify_frame user r f _ x), (get_modify_frame user r f _ y),
    (get_modify_frame user r f _ velocity) by reflexivity.
  injection Hb as Hx Hy Hv _ _ _ _ _ _ _ _.
  split; [exact Hx|]. split; [exact Hy|]. split; [exact Hv|]. split.
  - intros Hne. rewrite get_modify_same. unfold f. cbn [abilities set_abilities].
    rewrite lookup_insert_ne by congruence.
    pose proof (world_after_hit_body ab target user w) as Hb'.
    unfold body in Hb'. injection Hb' as _ _ _ _ _ _ _ Ha _ _ _. now rewrite Ha.
  - intros Hne. rewrite get_modify_same.
    rewrite (get_modify_other user target) by assumption.
    rewrite (world_after_hit_other ab target user w) by congruence.
    split; [reflexivity|]. split; [reflexivity|].
    pose proof (world_after_hit_body ab target target w) as Hb'.
    unfold body in Hb'. now injection Hb' as _ _ _ _ _ _ _ Ha _ _ _.
Qed.

(** What [use_ability] leaves alone: nobody is moved; the other
    abilities of the user keep their state; and when user and target are
    two combatants, the user's health, alive flag and effects and the
    target's abilities are untouched. *)
Theorem use_ability_frame (m : MathLib) (name : string) (user target : Who) (w : World)
    (r : Who) (other : string) :
  let w' := (use_ability m name user target w).2 in
  x (get w' r) = x (get w r) /\ y (get w' r) = y (get w r)
  /\ velocity (get w' r) = velocity (get w r)
  /\ (other <> name ->
      abilities (get w' user) !! other = abilities (get w user) !! other)
  /\ (user <> target ->
      vital (get w' user) = vital (get w user)
      /\ active_effects (get w' user) = active_effects (get w user)
      /\ abilities (get w' target) = abilities (get w target)).
Proof. apply use_ability_keeps. Qed.

(** [use_ability] never heals: with a non-negative damage, the health of
    every combatant after the call is between 0 and its health before,
    and nobody comes back to life. *)
Theorem use_ability_never_heals (m : MathLib) (name : string) (user target : Who) (w : World) (r : Who) :
  (forall ab, abilities (get w user) !! name = Some ab -> 0 <= damage ab) ->
  (0 <= health (get w r))%Q ->
  let w' := (use_ability m name user target w).2 in
  (0 <= health (get w' r))%Q /\ (health (get w' r) <= health (get w r))%Q
  /\ (is_alive (get w r) = false -> is_alive (get w' r) = false).
Proof.
  intros Hdmg Hh. cbv zeta.
  destruct (use_ability_cases m name user target w) as [-> | (ab & Hab & _ & _ & ->)];
    cbn [snd]; [repeat split; auto; lra|].
  pose proof (set_ability_vital name (set_current_cooldown (cooldown ab) ab) user r
                (world_after_hit ab target w)) as Hv.
  unfold vital in Hv. injection Hv as -> ->.
  destruct (Who_cases target r) as [<- | Hne].
  - pose proof (world_after_hit_vital ab target w) as Hv.
    unfold vital in Hv. injection Hv as -> ->.
    apply take_damage_le; [|exact Hh].
    change 0%Q with (inject_Z 0). rewrite <- Zle_Qle. now apply Hdmg.
  - rewrite world_after_hit_other by assumption. repeat split; auto; lra.
Qed.

Lemma use_ability_never_heals_witness :
  (health (get (use_ability example_math "acid_spray" Enemy Player example_world).2 Player)
   <= health (get example_world Player))%Q.
Proof.
  apply (use_ability_never_heals example_math "acid_spray" Enemy Player example_world Player).
  - intros ab H. vm_compute in H. injection H as <-. simpl. lia.
  - vm_compute. discriminate.
Defined.

(** ** More on the opponent controller *)

(** The state graph of [AIController.update].  A controller whose
    combatant is dead is left as it is, with the store and the random
    source.  For a live one, attack is only ever entered from idle and
    left at once, move is entered from idle or kept, and the fields
    outside state and timer never change. *)
Theorem controller_graph
    (m : MathLib) (dt : Q) (player_ant : Who) (t : Terrain) (ai : AIController)
    (w : World) (g : RNG) :
  let ai' := (AIController_update m dt player_ant t ai w g).1.1 in
  (is_alive (get w (ai_ant ai)) = false ->
   AIController_update m dt player_ant t ai w g = (ai, w, g))
  /\ (is_alive (get w (ai_ant ai)) = true ->
      (ai_state ai' = attack -> ai_state ai = idle)
      /\ (ai_state ai' = move -> ai_state ai = idle \/ ai_state ai = move)
      /\ (ai_state ai' = ai_state ai -> ai_state ai' <> attack))
  /\ ai_ant ai' = ai_ant ai /\ ai_config ai' = ai_config ai
  /\ difficulty ai' = difficulty ai.
Proof.
  cbv zeta. unfold AIController_update.
  destruct (is_alive (get w (ai_ant ai))); cbn [negb];
    [|repeat split; intros; try discriminate; reflexivity].
  cbv zeta. cbn [ai_state ai_ant set_state state_timer].
  split; [discriminate|].
  destruct (ai_state ai) eqn:Hst.
  - destruct (Qle_bool (state_timer ai - dt) 0);
      [destruct (Py.Qltb _ 100)|]; simpl; rewrite ?Hst;
      repeat split; intros; auto; congruence.
  - destruct (_ || _); simpl; rewrite ?Hst;
      repeat split; intros; auto; congruence.
  - destruct (attack_decision m _ _ _ w g) as [w1 g1]. simpl.
    repeat split; intros; auto; congruence.
Qed.

(** One update of the controller draws at most three random numbers and
    never rewinds the source. *)
Theorem controller_draws
    (m : MathLib) (dt : Q) (player_ant : Who) (t : Terrain) (ai : AIController)
    (w : World) (g : RNG) :
  let g' := (AIController_update m dt player_ant t ai w g).2 in
  samples g' = samples g
  /\ (cursor g <= cursor g' <= cursor g + 3)%nat.
Proof.
  cbv zeta. unfold AIController_update.
  destruct (is_alive (get w (ai_ant ai))); cbn [negb]; [|simpl; split; [reflexivity | lia]].
  cbv zeta. cbn [ai_state ai_ant set_state state_timer].
  destruct (ai_state ai).
  - destruct (Qle_bool (state_timer ai - dt) 0);
      [destruct (Py.Qltb _ 100)|]; simpl; split; try reflexivity; lia.
  - destruct (_ || _); simpl; split; try reflexivity; lia.
  - match goal with
    | |- context [attack_decision m ?a ?p ?d w g] =>
        destruct (attack_decision_rng m a p d w g) as (k & Hk & Hs & Hc);
        destruct (attack_decision m a p d w g) as [w1 g1]
    end.
    simpl in *. split; [exact Hs | lia].
Qed.

(** Seeking: a live controller in state move whose timer has not run
    out and whose combatant is 50 or more from the player moves that
    combatant by exactly two units, toward the player unless the roll is
    below 0.2, and changes nothing else but its timer. *)
Theorem controller_seeks
    (m : MathLib) (dt : Q) (player_ant : Who) (t : Terrain) (ai : AIController)
    (w : World) (g : RNG) :
  is_alive (get w (ai_ant ai)) = true ->
  ai_state ai = move ->
  (0 < state_timer ai - dt)%Q ->
  (50 <= Py.abs (x (get w (ai_ant ai)) - x (get w player_ant)))%Q ->
  let toward := Py.Qltb (x (get w (ai_ant ai))) (x (get w player_ant)) in
  let noise := Py.Qltb (samples g (cursor g)) 0.2 in
  let step := if xorb toward noise then 2 else -2 in
  AIController_update m dt player_ant t ai w g
  = (set_state move (state_timer ai - dt) ai,
     modify (ai_ant ai) (fun a => set_x (x a + inject_Z step) a) w,
     advance 1 g).
Proof.
  intros Halive Hst Htimer Hdist. cbv zeta. unfold AIController_update.
  rewrite Halive. cbn [negb]. cbv zeta.
  cbn [ai_state ai_ant set_state state_timer]. rewrite Hst.
  rewrite (proj2 (Qle_bool_gt _ _) Htimer), (proj2 (Qltb_ge _ _) Hdist).
  cbn [orb]. unfold random.
  destruct (Py.Qltb (x (get w (ai_ant ai))) (x (get w player_ant)));
    destruct (Py.Qltb (samples g (cursor g)) 0.2); reflexivity.
Qed.

Lemma controller_seeks_witness :
  x (enemy (AIController_update example_math (1 # 60) Player example_terrain
              (set_state move 1 (AIController_init Enemy default_config))
              (modify Enemy (set_x 650) example_world) example_rng).1.2)
  = (650 + inject_Z (-2))%Q.
Proof.
  rewrite (controller_seeks example_math (1 # 60) Player example_terrain
             (set_state move 1 (AIController_init Enemy default_config))
             (modify Enemy (set_x 650) example_world) example_rng).
  - reflexivity.
  - reflexivity.
  - reflexivity.
  - reflexivity.
  - vm_compute. discriminate.
Defined.

Lemma attack_decision_world (m : MathLib) (ai : AIController) (player_ant : Who) (d : Q)
    (w : World) (g : RNG) :
  (attack_decision m ai player_ant d w g).1 = w
  \/ exists name,
      (attack_decision m ai player_ant d w g).1
      = (use_ability m name (ai_ant ai) player_ant w).2
      /\ (name = "bite" \/ name = "acid_spray").
Proof.
  unfold attack_decision, random.
  repeat match goal with
    | |- context [if ?c then _ else _] => destruct c
    end; simpl; eauto.
Qed.

(** The controller acts on the player only through its two abilities
    and on its own combatant only by walking: when the two are distinct,
    an update never changes the health or alive flag of its own
    combatant nor the place of the player, and it changes the height of
    nobody. *)
Theorem controller_frame
    (m : MathLib) (dt : Q) (player_ant : Who) (t : Terrain) (ai : AIController)
    (w : World) (g : RNG) (r : Who) :
  ai_ant ai <> player_ant ->
  let w' := (AIController_update m dt player_ant t ai w g).1.2 in
  vital (get w' (ai_ant ai)) = vital (get w (ai_ant ai))
  /\ x (get w' player_ant) = x (get w player_ant)
  /\ y (get w' r) = y (get w r)
  /\ abilities (get w' player_ant) = abilities (get w player_ant).
Proof.
  intros Hne. cbv zeta. unfold AIController_update.
  destruct (is_alive (get w (ai_ant ai))); cbn [negb]; [|repeat split; reflexivity].
  cbv zeta. cbn [ai_state ai_ant set_state state_timer].
  destruct (ai_state ai).
  - destruct (Qle_bool (state_timer ai - dt) 0);
      [destruct (Py.Qltb _ 100)|]; simpl; repeat split; reflexivity.
  - destruct (_ || _); [simpl; repeat split; reflexivity|].
    unfold random. cbn [fst snd].
    rewrite get_modify_same, (get_modify_other (ai_ant ai) player_ant) by assumption.
    split; [reflexivity|]. split; [reflexivity|]. split; [|reflexivity].
    now apply (get_modify_frame (ai_ant ai) r _ w y).
  - match goal with
    | |- context [attack_decision m ?a ?p ?d w g] =>
        destruct (attack_decision_world m a p d w g) as [Hw | (name & Hw & _)];
        destruct (attack_decision m a p d w g) as [w1 g1]
    end; cbn [fst snd] in *; subst w1; [repeat split; reflexivity|].
    destruct (use_ability_keeps m name (ai_ant ai) player_ant w player_ant name)
      as (Hx & _ & _ & _ & Hu).
    destruct (use_ability_keeps m name (ai_ant ai) player_ant w r name)
      as (_ & Hy & _).
    destruct (Hu Hne) as (Hv & _ & Ha). auto.
Qed.

Lemma controller_frame_witness :
  vital (get (AIController_update example_math (1 # 60) Player example_terrain example_attacker
                example_world example_rng).1.2 Enemy)
  = vital (get example_world Enemy).
Proof.
  apply (controller_frame example_math (1 # 60) Player example_terrain example_attacker
           example_world example_rng Enemy).
  discriminate.
Defined.

(** ** The frame update *)

Lemma Ant_update_total (dt : Q) (t : Terrain) (a : Ant) :
  config_ok (config t) -> terrain_ok t -> exists a', Ant_update dt t a = Some a'.
Proof.
  intros Hc Hok. destruct (is_alive a) eqn:Halive.
  - destruct (get_height_at_total t (Py.int (x a + (velocity a).1)) Hc Hok) as [gh Hgh].
    destruct (Ant_update_alive dt t a gh Halive Hgh) as (a' & H & _). eauto.
  - exists a. unfold Ant_update. now rewrite Halive.
Qed.

(** The projectile block on a terrain of a match: it answers, the
    terrain it leaves is the old one or the old one with a crater, and
    the projectile keeps its damage. *)
Lemma projectile_tick_total (m : MathLib) (cfg : GameConfig) (p : Projectile) (t : Terrain)
    (w : World) (g : RNG) :
  config_ok (config t) -> terrain_ok t ->
  exists p' t' w' g',
    projectile_tick m cfg p t w g = Some (p', t', w', g')
    /\ config t' = config t /\ terrain_ok t'
    /\ (active p' = true -> t' = t /\ w' = w).
Proof.
  intros Hc Hok.
  destruct (check_collision_total t
              (Py.int (p_x (Projectile_update cfg p)))
              (Py.int (p_y (Projectile_update cfg p))) Hc Hok) as (hit & Hhit).
  unfold projectile_tick, ground_check, enemy_check.
  rewrite Hhit. cbn [mbind option_bind].
  destruct hit; cbn [apply_destruction mbind option_bind];
    cbn [set_active p_x p_y p_damage active];
    destruct (Py.Qltb (hypot m _ _) 15);
    eexists _, _, _, _; (split; [reflexivity|]); cbn [active set_active];
    (split; [reflexivity|]);
    (split; [first [exact Hok | apply crater_ok; [apply Hc | exact Hok]]|]);
    intros Hact; first [discriminate | split; reflexivity].
Qed.

(** [Game.update] keeps the height-field invariant.  On a match whose
    terrain respects it, and whose positions and speeds are far from the
    largest float, so that every [int()] of the frame is taken of a
    finite number, each terrain lookup of the frame answers (no
    [IndexError]), and the terrain that the frame leaves respects the
    invariant under the same configuration; the charging power and the
    configuration are not touched. *)
Theorem Game_update_terrain (m : MathLib) (dt : Q) (gm : Game) (g : RNG) :
  game_ok gm ->
  game_float_safe gm ->
  exists gm' g',
    Game_update m dt gm g = Some (gm', g')
    /\ game_ok gm'
    /\ config (terrain gm') = config (terrain gm)
    /\ g_config gm' = g_config gm
    /\ charging_power gm' = charging_power gm.
Proof.
  intros [Hc Hok] _. unfold Game_update.
  destruct (Ant_update_total dt (terrain gm) (player (world gm)) Hc Hok) as [pl ->].
  destruct (Ant_update_total dt (terrain gm) (enemy (world gm)) Hc Hok) as [en ->].
  cbn [mbind option_bind].
  destruct (AIController_update m dt Player (terrain gm) (ai_controller gm)
              {| player := pl; enemy := en |} g) as [[ai w] g1].
  destruct (projectile gm) as [p|]; [destruct (active p)|].
  - destruct (projectile_tick_total m (g_config gm) p (terrain gm) w g1 Hc Hok)
      as (p' & t' & w' & g' & -> & Hcfg & Hok' & _).
    cbn [mbind option_bind]. eexists _, _. split; [reflexivity|].
    cbn [terrain g_config charging_power]. unfold game_ok. cbn [terrain].
    rewrite Hcfg. auto.
  - cbn [mbind option_bind]. eexists _, _. split; [reflexivity|].
    unfold game_ok. cbn. auto.
  - cbn [mbind option_bind]. eexists _, _. split; [reflexivity|].
    unfold game_ok. cbn. auto.
Qed.

Lemma Game_update_terrain_witness :
  exists gm' g',
    Game_update example_math (1 # 60) example_game example_rng = Some (gm', g') /\ game_ok gm'.
Proof.
  destruct (Game_update_terrain example_math (1 # 60) example_game example_rng)
    as (gm' & g' & H1 & H2 & _).
  - split.
    + unfold config_ok. simpl. lia.
    + split; [refine (bool_decide_unpack _ _); vm_compute; exact I
             | vm_compute; reflexivity].
  - split; [split; vm_compute; discriminate|].
    split; [split; vm_compute; discriminate|].
    intros p Hp _. injection Hp as <-.
    repeat split; vm_compute; discriminate.
  - exists gm', g'. auto.
Defined.

(** The win check of [Game.update]: the match is over after a frame iff
    it was over before or one of the two combatants is dead at the end
    of the frame; otherwise the state is what it was.  The state never
    leaves [GAME_OVER]. *)
Theorem Game_update_game_over (m : MathLib) (dt : Q) (gm gm' : Game) (g g' : RNG) :
  Game_update m dt gm g = Some (gm', g') ->
  (g_state gm' = GAME_OVER <->
   g_state gm = GAME_OVER
   \/ is_alive (player (world gm')) = false
   \/ is_alive (enemy (world gm')) = false)
  /\ (g_state gm' <> GAME_OVER -> g_state gm' = g_state gm).
Proof.
  unfold Game_update. intros H.
  destruct (Ant_update dt (terrain gm) (player (world gm))) as [pl|]; [|discriminate].
  destruct (Ant_update dt (terrain gm) (enemy (world gm))) as [en|]; [|discriminate].
  cbn [mbind option_bind] in H.
  destruct (AIController_update m dt Player (terrain gm) (ai_controller gm)
              {| player := pl; enemy := en |} g) as [[ai w] g1].
  assert (Hgoal : forall proj t w2 g2,
             Some ({| g_config := g_config gm;
                      g_state := if negb (is_alive (player w2)) || negb (is_alive (enemy w2))
                                 then GAME_OVER else g_state gm;
                      terrain := t; world := w2; ai_controller := ai;
                      projectile := proj; charging_power := charging_power gm |}, g2)
             = Some (gm', g') ->
             (g_state gm' = GAME_OVER <->
              g_state gm = GAME_OVER
              \/ is_alive (player (world gm')) = false
              \/ is_alive (enemy (world gm')) = false)
             /\ (g_state gm' <> GAME_OVER -> g_state gm' = g_state gm)).
  { intros proj t w2 g2 Heq. injection Heq as <- <-. cbn [g_state world].
    destruct (is_alive (player w2)), (is_alive (enemy w2)); cbn [negb orb];
      split; try tauto; try (intros; congruence);
      split; auto; intros [H1 | [H1 | H1]]; auto; discriminate. }
  destruct (projectile gm) as [p|]; [destruct (active p)|].
  - destruct (projectile_tick m (g_config gm) p (terrain gm) w g1)
      as [[[[p' t'] w'] g2]|]; [|discriminate].
    cbn [mbind option_bind] in H. eapply Hgoal; exact H.
  - cbn [mbind option_bind] in H. eapply Hgoal; exact H.
  - cbn [mbind option_bind] in H. eapply Hgoal; exact H.
Qed.

Lemma Game_update_game_over_witness :
  exists gm' g',
    Game_update example_math (1 # 60) example_game example_rng = Some (gm', g')
    /\ (g_state gm' <> GAME_OVER -> g_state gm' = PLAYING).
Proof.
  destruct (Game_update example_math (1 # 60) example_game example_rng) as [[gm' g']|] eqn:E;
    [|vm_compute in E; discriminate].
  exists gm', g'. split; [reflexivity|].
  apply (Game_update_game_over example_math (1 # 60) example_game gm' example_rng g' E).
Defined.

(** A spent or absent projectile is left alone: [Game.update] then
    changes neither the projectile nor the terrain.  A projectile that
    is active after the frame was active before it, has made one
    [update] step and has left the terrain as it was: the active flag
    never comes back. *)
Theorem Game_update_projectile (m : MathLib) (dt : Q) (gm gm' : Game) (g g' : RNG) :
  Game_update m dt gm g = Some (gm', g') ->
  ((forall p, projectile gm = Some p -> active p = false) ->
   projectile gm' = projectile gm /\ terrain gm' = terrain gm)
  /\ (forall p', projectile gm' = Some p' -> active p' = true ->
      terrain gm' = terrain gm
      /\ exists p, projectile gm = Some p /\ active p = true
                   /\ p' = Projectile_update (g_config gm) p).
Proof.
  unfold Game_update. intros H.
  destruct (Ant_update dt (terrain gm) (player (world gm))) as [pl|]; [|discriminate].
  destruct (Ant_update dt (terrain gm) (enemy (world gm))) as [en|]; [|discriminate].
  cbn [mbind option_bind] in H.
  destruct (AIController_update m dt Player (terrain gm) (ai_controller gm)
              {| player := pl; enemy := en |} g) as [[ai w] g1].
  destruct (projectile gm) as [p|] eqn:Hp; [destruct (active p) eqn:Hact|].
  - unfold projectile_tick, ground_check, enemy_check in H.
    destruct (check_collision (terrain gm) _ _) as [hit|]; [|discriminate].
    cbn [mbind option_bind] in H.
    destruct hit; cbn [apply_destruction mbind option_bind] in H;
      cbn [set_active p_x p_y p_damage active] in H;
      destruct (Py.Qltb (hypot m _ _) 15); cbn [mbind option_bind] in H;
      injection H as <- <-; cbn [projectile terrain];
      (split; [intros Hall; specialize (Hall p eq_refl); congruence|]);
      intros p' Hp' Hact'; injection Hp' as <-;
      cbn [active set_active] in Hact'; try discriminate.
    split; [reflexivity|]. exists p. auto.
  - cbn [mbind option_bind] in H. injection H as <- <-. cbn [projectile terrain].
    split; [auto|]. intros p' Hp' Hact'. injection Hp' as <-. congruence.
  - cbn [mbind option_bind] in H. injection H as <- <-. cbn [projectile terrain].
    split; [auto|]. intros p' Hp'. discriminate.
Qed.

Lemma Game_update_projectile_witness :
  exists gm' g',
    Game_update example_math (1 # 60) (set_g_state PLAYING (Game_init example_math example_rng).1)
                example_rng = Some (gm', g')
    /\ projectile gm' = None
    /\ terrain gm' = terrain (Game_init example_math example_rng).1.
Proof.
  destruct (Game_update example_math (1 # 60) (set_g_state PLAYING (Game_init example_math example_rng).1)
                        example_rng) as [[gm' g']|] eqn:E;
    [|vm_compute in E; discriminate].
  exists gm', g'. split; [reflexivity|].
  apply (Game_update_projectile example_math (1 # 60) _ gm' example_rng g' E).
  intros p Hp. discriminate.
Defined.

(** ** Input and menus *)

Lemma max_lower_l (a b : Q) : (a <= Py.max a b)%Q.
Proof.
  unfold Py.max. destruct (Py.Qltb a b) eqn:E.
  - apply Qltb_lt in E. lra.
  - apply Qle_refl.
Qed.

Lemma min_upper_l (a b : Q) : (Py.min a b <= a)%Q.
Proof.
  unfold Py.min. destruct (Py.Qltb b a) eqn:E.
  - apply Qltb_lt in E. lra.
  - apply Qle_refl.
Qed.

(** After [handle_input] the player is inside the arena, ten units from
    either edge, whatever keys are held and wherever it was. *)
Theorem handle_input_clamps (m : MathLib) (keys : Key -> bool) (gm : Game) :
  20 <= SCREEN_WIDTH (g_config gm) ->
  (10 <= x (player (world (handle_input m keys gm))))%Q
  /\ (x (player (world (handle_input m keys gm)))
      <= inject_Z (SCREEN_WIDTH (g_config gm) - 10))%Q.
Proof.
  intros HW. unfold handle_input. cbv zeta.
  cbn [world set_charging_power set_world modify player x set_x].
  split; [apply max_lower_l|].
  apply max_upper; [|apply min_upper_l].
  change 10%Q with (inject_Z 10). rewrite <- Zle_Qle. lia.
Qed.

Lemma handle_input_clamps_witness :
  (10 <= x (player (world (handle_input example_math (fun k => true) example_game))))%Q.
Proof.
  apply (handle_input_clamps example_math (fun k => true) example_game). simpl. lia.
Defined.

(** The throw charge: held space adds 0.5 per call up to the cap of 20,
    a released space leaves the charge as it is; a charge of at most 20
    never goes down and never passes 20. *)
Theorem handle_input_charge (m : MathLib) (keys : Key -> bool) (gm : Game) :
  (charging_power gm <= 20)%Q ->
  (charging_power gm <= charging_power (handle_input m keys gm))%Q
  /\ (charging_power (handle_input m keys gm) <= 20)%Q
  /\ (keys K_SPACE = false ->
      charging_power (handle_input m keys gm) = charging_power gm)
  /\ (keys K_SPACE = true -> (charging_power gm + 0.5 <= 20)%Q ->
      charging_power (handle_input m keys gm) = (charging_power gm + 0.5)%Q).
Proof.
  intros Hcp. unfold handle_input. cbv zeta. cbn [charging_power set_charging_power].
  destruct (keys K_SPACE).
  - unfold Py.min. destruct (Py.Qltb 20 (charging_power gm + 0.5)) eqn:E.
    + apply Qltb_lt in E. repeat split; try lra; try discriminate;
        intros; lra.
    + apply Qltb_ge in E. repeat split; try lra; discriminate.
  - repeat split; try lra; discriminate.
Qed.

Lemma handle_input_charge_witness :
  (charging_power (handle_input example_math (fun k => true) example_game) <= 20)%Q.
Proof.
  apply (handle_input_charge example_math (fun k => true) example_game).
  vm_compute. discriminate.
Defined.

(** Input acts on the enemy only through the two abilities: whatever
    keys are held, [handle_input] leaves the player's health and alive
    flag, the place and abilities of the enemy, the height of the
    player, the terrain, the projectile, the controller and the game
    state as they were. *)
Theorem handle_input_frame (m : MathLib) (keys : Key -> bool) (gm : Game) :
  let gm' := handle_input m keys gm in
  vital (player (world gm')) = vital (player (world gm))
  /\ y (player (world gm')) = y (player (world gm))
  /\ x (enemy (world gm')) = x (enemy (world gm))
  /\ y (enemy (world gm')) = y (enemy (world gm))
  /\ abilities (enemy (world gm')) = abilities (enemy (world gm))
  /\ terrain gm' = terrain gm /\ projectile gm' = projectile gm
  /\ ai_controller gm' = ai_controller gm /\ g_state gm' = g_state gm.
Proof.
  cbv zeta. unfold handle_input. cbv zeta.
  cbn [world set_charging_power set_world terrain projectile ai_controller g_state].
  set (w1 := if keys K_LEFT then _ else _).
  set (w2 := if keys K_z then _ else w1).
  set (w3 := if keys K_x then _ else w2).
  assert (H1 : vital (player w1) = vital (player (world gm))
               /\ y (player w1) = y (player (world gm))
               /\ enemy w1 = enemy (world gm)).
  { unfold w1. destruct (keys K_LEFT); [|destruct (keys K_RIGHT)]; now simpl. }
  assert (Hstep : forall name w,
             vital (player (use_ability m name Player Enemy w).2) = vital (player w)
             /\ y (player (use_ability m name Player Enemy w).2) = y (player w)
             /\ x (enemy (use_ability m name Player Enemy w).2) = x (enemy w)
             /\ y (enemy (use_ability m name Player Enemy w).2) = y (enemy w)
             /\ abilities (enemy (use_ability m name Player Enemy w).2) = abilities (enemy w)).
  { intros name w.
    destruct (use_ability_keeps m name Player Enemy w Player name) as (_ & Hy & _ & _ & Hu).
    destruct (use_ability_keeps m name Player Enemy w Enemy name) as (Hx' & Hy' & _).
    destruct (Hu ltac:(discriminate)) as (Hv & _ & Ha). auto. }
  assert (H2 : vital (player w2) = vital (player w1) /\ y (player w2) = y (player w1)
               /\ x (enemy w2) = x (enemy w1) /\ y (enemy w2) = y (enemy w1)
               /\ abilities (enemy w2) = abilities (enemy w1)).
  { unfold w2. destruct (keys K_z); [apply Hstep | auto]. }
  assert (H3 : vital (player w3) = vital (player w2) /\ y (player w3) = y (player w2)
               /\ x (enemy w3) = x (enemy w2) /\ y (enemy w3) = y (enemy w2)
               /\ abilities (enemy w3) = abilities (enemy w2)).
  { unfold w3. destruct (keys K_x); [apply Hstep | auto]. }
  cbn [modify player enemy].
  destruct H1 as (A1 & A2 & A3), H2 as (B1 & B2 & B3 & B4 & B5),
    H3 as (C1 & C2 & C3 & C4 & C5).
  rewrite <- A3.
  repeat split; try reflexivity; cbn [y set_x]; try congruence.
  unfold vital in *. cbn [health is_alive set_x].
  congruence.
Qed.


Lemma Game_init_ok (m : MathLib) (g : RNG) : game_ok (Game_init m g).1.
Proof.
  unfold Game_init.
  pose proof (Terrain_init_ok m default_config g default_config_ok) as [Hc Hok].
  destruct (Terrain_init m default_config g) as [t g1].
  cbn [fst] in *. unfold game_ok. cbn [fst terrain].
  split; [rewrite Hc; exact default_config_ok | exact Hok].
Qed.

(** Restart: when the first space key press of the pending events comes
    before any window close or escape, the game-over loop answers [True]
    and the game is the one [__init__] builds, whatever the old one
    was: state [MENU], no projectile, no charge, a controller in idle,
    and a new terrain that satisfies the invariant for any sine and any
    random source. *)
Theorem handle_game_over_restart
    (m : MathLib) (before after : list Event) (gm : Game) (g : RNG) :
  existsb is_quit before = false ->
  existsb is_start before = false ->
  handle_game_over m (before ++ KEYDOWN K_SPACE :: after) gm g
  = (true, (Game_init m g).1, (Game_init m g).2)
  /\ game_ok (Game_init m g).1
  /\ g_state (Game_init m g).1 = MENU
  /\ projectile (Game_init m g).1 = None
  /\ ai_state (ai_controller (Game_init m g).1) = idle
  /\ vital (player (world (Game_init m g).1)) = (100%Q, true)
  /\ vital (enemy (world (Game_init m g).1)) = (100%Q, true).
Proof.
  intros Hq Hs. split.
  - induction before as [|e before IH].
    + simpl. now destruct (Game_init m g).
    + cbn [existsb] in Hq, Hs. apply orb_false_iff in Hq as [Hq1 Hq2].
      apply orb_false_iff in Hs as [Hs1 Hs2].
      destruct e as [|k|k|]; try destruct k; try discriminate;
        cbn [app handle_game_over]; now apply IH.
  - split; [apply Game_init_ok|].
    unfold Game_init. destruct (Terrain_init m default_config g) as [t g1].
    repeat split.
Qed.

Lemma handle_game_over_restart_witness :
  handle_game_over example_math [OTHER_EVENT; KEYUP K_z; KEYDOWN K_SPACE; QUIT]
                   example_game example_rng
  = (true, (Game_init example_math example_rng).1,
     (Game_init example_math example_rng).2).
Proof.
  apply (handle_game_over_restart example_math [OTHER_EVENT; KEYUP K_z] [QUIT]
           example_game example_rng); reflexivity.
Defined.
